(** * Keycode decoder and markup escaper of [generate_keyboard_layers.py]

    A shallow embedding of [escape_svg_text] and [parse_keycode] from
    [scripts/generate_keyboard_layers.py], together with the part of
    Python's [str] and [re] that the two functions use.

    A Python [str] is a sequence of Unicode code points; it is modelled
    as [list N].  String literals are written as in the source and are
    read as UTF-8, one list element per code point. *)

From Stdlib Require Import List NArith Bool Arith Lia Strings.Byte.
From Stdlib Require Import ZArith.
From Stdlib Require Decimal DecimalNat.
Import ListNotations.

Local Open Scope N_scope.

(** ** Python strings *)

Definition codepoint := N.
Definition pystr := list N.

Module Literal.

(** Literals are decoded from their UTF-8 bytes.  [need] is the number
    of continuation bytes still expected and [acc] the bits read so far. *)
Fixpoint utf8_decode (need : nat) (acc : N) (bs : list N) : list N :=
  match bs with
  | [] => []
  | b :: r =>
      match need with
      | O => if b <? 128 then b :: utf8_decode 0 0 r
             else if b <? 224 then utf8_decode 1 (b - 192) r
             else if b <? 240 then utf8_decode 2 (b - 224) r
             else utf8_decode 3 (b - 240) r
      | S O => (acc * 64 + (b - 128)) :: utf8_decode 0 0 r
      | S n => utf8_decode n (acc * 64 + (b - 128)) r
      end
  end.

Definition utf8_encode (c : N) : list N :=
  if c <? 128 then [c]
  else if c <? 2048 then [192 + c / 64; 128 + c mod 64]
  else if c <? 65536 then
    [224 + c / 4096; 128 + (c / 64) mod 64; 128 + c mod 64]
  else [240 + c / 262144; 128 + (c / 4096) mod 64;
        128 + (c / 64) mod 64; 128 + c mod 64].

Inductive cps := cnil | ccons (c : N) (t : cps).

Fixpoint to_cps (l : list N) : cps :=
  match l with [] => cnil | c :: t => ccons c (to_cps t) end.

Fixpoint of_cps (l : cps) : list N :=
  match l with cnil => [] | ccons c t => c :: of_cps t end.

Definition parse (bs : list byte) : cps :=
  to_cps (utf8_decode 0 0 (map Byte.to_N bs)).

Definition print (l : cps) : option (list byte) :=
  fold_right
    (fun ob acc =>
       match ob, acc with Some b, Some r => Some (b :: r) | _, _ => None end)
    (Some []) (map Byte.of_N (flat_map utf8_encode (of_cps l))).

End Literal.

Declare Scope pystr_scope.
Delimit Scope pystr_scope with py.
Set Warnings "-via-type-remapping,-via-type-mismatch".
String Notation pystr Literal.parse Literal.print
  (via Literal.cps mapping [[nil] => Literal.cnil, [cons] => Literal.ccons])
  : pystr_scope.
Set Warnings "via-type-remapping,via-type-mismatch".
Local Open Scope pystr_scope.
Local Open Scope list_scope.

(** [a == b] on strings. *)
Fixpoint str_eqb (a b : pystr) : bool :=
  match a, b with
  | [], [] => true
  | x :: a', y :: b' => (x =? y) && str_eqb a' b'
  | _, _ => false
  end.

(** [s.startswith(p)], and the rest of [s] after [p] when it holds. *)
Fixpoint strip_prefix (p s : pystr) : option pystr :=
  match p with
  | [] => Some s
  | x :: p' =>
      match s with
      | y :: s' => if y =? x then strip_prefix p' s' else None
      | [] => None
      end
  end.

Definition startswith (s p : pystr) : bool :=
  match strip_prefix p s with Some _ => true | None => false end.

(** The slices [s[:n]] and [s[n:]]. *)
Definition slice_to (n : nat) (s : pystr) : pystr := firstn n s.
Definition slice_from (n : nat) (s : pystr) : pystr := skipn n s.

(** [s.replace(old, new)]: the occurrences of [old] are replaced from
    left to right without overlap; [skip] counts the characters of an
    occurrence just replaced that are still to be passed over.  With an
    empty [old], Python puts [new] before every character and at the end. *)
Fixpoint replace_from (old new : pystr) (skip : nat) (s : pystr) : pystr :=
  match s with
  | [] => []
  | c :: t =>
      match skip with
      | S n => replace_from old new n t
      | O =>
          if startswith s old
          then new ++ replace_from old new (length old - 1) t
          else c :: replace_from old new 0 t
      end
  end.

Definition str_replace (s old new : pystr) : pystr :=
  match old with
  | [] => new ++ flat_map (fun c => c :: new) s
  | _ => replace_from old new 0 s
  end.

(** [s.upper()] on the ASCII letters.  The decoder applies it only to a
    group captured by the class [[A-Z]], where it changes nothing. *)
Definition upper_char (c : codepoint) : codepoint :=
  if (97 <=? c) && (c <=? 122) then c - 32 else c.

Definition upper (s : pystr) : pystr := map upper_char s.

(** ** Python dictionaries with string keys and values

    The dictionaries of the source are literals that are only read; a
    list of items in source order, none of which repeats a key. *)

Definition dict := list (pystr * pystr).

Fixpoint dict_find (d : dict) (k : pystr) : option pystr :=
  match d with
  | [] => None
  | (k', v) :: d' => if str_eqb k k' then Some v else dict_find d' k
  end.

(** [k in d] *)
Definition dict_mem (k : pystr) (d : dict) : bool :=
  match dict_find d k with Some _ => true | None => false end.

(** [d.get(k, default)] *)
Definition dict_get (d : dict) (k default : pystr) : pystr :=
  match dict_find d k with Some v => v | None => default end.

(** No key of [d] is repeated. *)
Fixpoint distinct_keys (d : dict) : bool :=
  match d with
  | [] => true
  | (k, _) :: d' =>
      negb (match dict_find d' k with Some _ => true | None => false end)
      && distinct_keys d'
  end.

(** ** Exceptions

    The operations of the decoder that can raise: indexing a dictionary
    with a missing key, asking a match for a group it does not have, and
    unpacking a tuple of the wrong size. *)

Inductive exn := KeyError | IndexError | ValueError.

Definition res (A : Type) : Type := exn + A.

Definition ret {A} (a : A) : res A := inr a.
Definition raise {A} (e : exn) : res A := inl e.
Definition bind {A B} (m : res A) (f : A -> res B) : res B :=
  match m with inl e => inl e | inr a => f a end.

Notation "x <- m ;; f" := (bind m (fun x => f))
  (at level 61, m at next level, right associativity).
Notation "' p <- m ;; f" := (bind m (fun x => let p := x in f))
  (at level 61, p pattern, m at next level, right associativity).

(** [d[k]] *)
Definition dict_index (d : dict) (k : pystr) : res pystr :=
  match dict_find d k with Some v => ret v | None => raise KeyError end.

(** ** Regular expressions ([re.match])

    The fragment of Python's pattern language used by the decoder:
    literal text, character classes, sequence, alternation, the greedy
    [?], the greedy [+] on a character class, and capturing groups.

    [re.match(pattern, string)] looks for a match that starts at the
    beginning of [string]; nothing requires it to reach the end. *)

Inductive regex :=
| Str (l : pystr)               (* literal text, e.g. [\(KC_] *)
| Cls (p : codepoint -> bool)   (* one character of a class *)
| Seq (r1 r2 : regex)           (* r1 r2 *)
| Alt (r1 r2 : regex)           (* r1|r2, the left one tried first *)
| Opt (r : regex)               (* r?, greedy *)
| Plus (p : codepoint -> bool)  (* [class]+, greedy *)
| Grp (r : regex).              (* (r), a capturing group *)

Declare Scope regex_scope.
Delimit Scope regex_scope with re.
Bind Scope regex_scope with regex.
Infix "@@" := Seq (at level 45, right associativity) : regex_scope.
Infix "|||" := Alt (at level 50, left associativity) : regex_scope.

Section Matcher.

Variable A : Type.

(** Greedy [p*] from [s]: [k] receives the text consumed and the rest;
    a shorter repetition is tried when [k] fails. *)
Fixpoint rep (p : codepoint -> bool) (s : pystr)
  (k : pystr -> pystr -> option A) : option A :=
  match s with
  | c :: t =>
      if p c then
        match rep p t (fun w s' => k (c :: w) s') with
        | Some v => Some v
        | None => k [] s
        end
      else k [] s
  | [] => k [] s
  end.

(** The backtracking matcher.  [g] lists the groups closed so far, in
    the order they closed; [k] is what remains to be matched, given the
    text consumed by [r], the rest of the string and the groups. *)
Fixpoint mt (r : regex) (s : pystr) (g : list pystr)
  (k : pystr -> pystr -> list pystr -> option A) : option A :=
  match r with
  | Str l =>
      match strip_prefix l s with
      | Some s' => k l s' g
      | None => None
      end
  | Cls p =>
      match s with
      | c :: s' => if p c then k [c] s' g else None
      | [] => None
      end
  | Seq r1 r2 =>
      mt r1 s g (fun w1 s1 g1 =>
      mt r2 s1 g1 (fun w2 s2 g2 => k (w1 ++ w2) s2 g2))
  | Alt r1 r2 =>
      match mt r1 s g k with
      | Some v => Some v
      | None => mt r2 s g k
      end
  | Opt r1 =>
      match mt r1 s g k with
      | Some v => Some v
      | None => k [] s g
      end
  | Plus p =>
      match s with
      | c :: s' =>
          if p c then rep p s' (fun w s2 => k (c :: w) s2 g) else None
      | [] => None
      end
  | Grp r1 => mt r1 s g (fun w s' g' => k w s' (g' ++ [w]))
  end.

End Matcher.

Arguments rep {A} p s k.
Arguments mt {A} r s g k.

(** A match object: the whole match and its groups.  In every pattern
    of the decoder the groups stand outside alternation and repetition
    and are not nested, so a match has all of them, in pattern order. *)
Record match_obj := MatchObj { group0 : pystr; captures : list pystr }.

Definition re_match (r : regex) (s : pystr) : option match_obj :=
  mt r s [] (fun w _ g => Some (MatchObj w g)).

(** [m.groups()] *)
Definition groups (m : match_obj) : list pystr := captures m.

(** [m.group(i)]; group 0 is the whole match *)
Definition group (m : match_obj) (i : nat) : res pystr :=
  match i with
  | O => ret (group0 m)
  | S j =>
      match nth_error (captures m) j with
      | Some w => ret w
      | None => raise IndexError
      end
  end.

(** [a, b = t] *)
Definition unpack2 (t : list pystr) : res (pystr * pystr) :=
  match t with
  | [a; b] => ret (a, b)
  | _ => raise ValueError
  end.

(** *** Character classes *)

Definition one_of (l : pystr) (c : codepoint) : bool :=
  existsb (N.eqb c) l.

Definition in_range (lo hi c : codepoint) : bool :=
  (lo <=? c) && (c <=? hi).

(** [[A-Z]] and [[A-Z0-9]] *)
Definition cls_upper (c : codepoint) : bool := in_range 65 90 c.
Definition cls_upper_digit (c : codepoint) : bool :=
  in_range 65 90 c || in_range 48 57 c.

(** [[^)]] *)
Definition cls_not_rparen (c : codepoint) : bool := negb (c =? 41).

(** [\d] in a [str] pattern is any Unicode decimal digit (category Nd),
    not only the ASCII ones.  The ranges are those of Unicode 14. *)
Definition decimal_ranges : list (N * N) :=
  [(48, 57); (1632, 1641); (1776, 1785); (1984, 1993); (2406, 2415);
   (2534, 2543); (2662, 2671); (2790, 2799); (2918, 2927); (3046, 3055);
   (3174, 3183); (3302, 3311); (3430, 3439); (3558, 3567); (3664, 3673);
   (3792, 3801); (3872, 3881); (4160, 4169); (4240, 4249); (6112, 6121);
   (6160, 6169); (6470, 6479); (6608, 6617); (6784, 6793); (6800, 6809);
   (6992, 7001); (7088, 7097); (7232, 7241); (7248, 7257); (42528, 42537);
   (43216, 43225); (43264, 43273); (43472, 43481); (43504, 43513);
   (43600, 43609); (44016, 44025); (65296, 65305); (66720, 66729);
   (68912, 68921); (69734, 69743); (69872, 69881); (69942, 69951);
   (70096, 70105); (70384, 70393); (70736, 70745); (70864, 70873);
   (71248, 71257); (71360, 71369); (71472, 71481); (71904, 71913);
   (72016, 72025); (72784, 72793); (73040, 73049); (73120, 73129);
   (92768, 92777); (92864, 92873); (93008, 93017); (120782, 120831);
   (123200, 123209); (123632, 123641); (125264, 125273); (130032, 130041)].

Definition cls_digit (c : codepoint) : bool :=
  existsb (fun r => in_range (fst r) (snd r) c) decimal_ranges.

(** ** The static tables *)

Definition QMK_KEYCODE_MAP : dict :=
  [ (* Basic keys *)
    ("KC_A", "A"); ("KC_B", "B"); ("KC_C", "C"); ("KC_D", "D");
    ("KC_E", "E"); ("KC_F", "F"); ("KC_G", "G"); ("KC_H", "H");
    ("KC_I", "I"); ("KC_J", "J"); ("KC_K", "K"); ("KC_L", "L");
    ("KC_M", "M"); ("KC_N", "N"); ("KC_O", "O"); ("KC_P", "P");
    ("KC_Q", "Q"); ("KC_R", "R"); ("KC_S", "S"); ("KC_T", "T");
    ("KC_U", "U"); ("KC_V", "V"); ("KC_W", "W"); ("KC_X", "X");
    ("KC_Y", "Y"); ("KC_Z", "Z");
    (* Numbers *)
    ("KC_1", "1"); ("KC_2", "2"); ("KC_3", "3"); ("KC_4", "4");
    ("KC_5", "5"); ("KC_6", "6"); ("KC_7", "7"); ("KC_8", "8");
    ("KC_9", "9"); ("KC_0", "0");
    (* Function keys *)
    ("KC_F1", "F1"); ("KC_F2", "F2"); ("KC_F3", "F3"); ("KC_F4", "F4");
    ("KC_F5", "F5"); ("KC_F6", "F6"); ("KC_F7", "F7"); ("KC_F8", "F8");
    ("KC_F9", "F9"); ("KC_F10", "F10"); ("KC_F11", "F11");
    ("KC_F12", "F12");
    (* Symbols; 92 is the backslash, 39 the apostrophe, 34 the double quote *)
    ("KC_MINS", "-"); ("KC_EQL", "="); ("KC_LBRC", "["); ("KC_RBRC", "]");
    ("KC_BSLS", [92]); ("KC_SCLN", ";"); ("KC_QUOT", [39]);
    ("KC_GRV", "`"); ("KC_COMM", ","); ("KC_DOT", "."); ("KC_SLSH", "/");
    ("KC_TILD", "~"); ("KC_EXLM", "!"); ("KC_AT", "@"); ("KC_HASH", "#");
    ("KC_DLR", "$"); ("KC_PERC", "%"); ("KC_CIRC", "^"); ("KC_AMPR", "&");
    ("KC_ASTR", [42]); ("KC_LPRN", [40]); ("KC_RPRN", [41]);
    ("KC_UNDS", "_"); ("KC_PLUS", "+"); ("KC_LCBR", "{"); ("KC_RCBR", "}");
    ("KC_PIPE", "|"); ("KC_COLN", ":"); ("KC_DQUO", [34]); ("KC_LT", "<");
    ("KC_GT", ">"); ("KC_QUES", "?");
    (* Special keys *)
    ("KC_SPC", "␣"); ("KC_ENT", "↵"); ("KC_BSPC", "⌫"); ("KC_DEL", "⌦");
    ("KC_TAB", "⇥"); ("KC_ESC", "⎋"); ("KC_CAPS", "⇪");
    ("KC_LSFT", "Shift"); ("KC_RSFT", "Shift"); ("KC_LCTL", "Ctrl");
    ("KC_RCTL", "Ctrl"); ("KC_LALT", "Alt"); ("KC_RALT", "Alt");
    ("KC_LGUI", "Win"); ("KC_RGUI", "Win");
    (* Navigation *)
    ("KC_LEFT", "←"); ("KC_DOWN", "↓"); ("KC_UP", "↑"); ("KC_RGHT", "→");
    ("KC_HOME", "Home"); ("KC_END", "End"); ("KC_PGUP", "PgUp");
    ("KC_PGDN", "PgDn");
    (* Layer keys *)
    ("KC_TRNS", "▽"); ("DF(0)", "L0"); ("DF(1)", "L1"); ("DF(2)", "L2");
    (* Audio/Media *)
    ("KC_MUTE", "Mute"); ("KC_VOLD", "Vol-"); ("KC_VOLU", "Vol+");
    ("KC_MPLY", "Play"); ("KC_MNXT", "Next"); ("KC_MPRV", "Prev");
    (* System *)
    ("QK_BOOT", "Boot"); ("DB_TOGG", "Debug"); ("BL_STEP", "BLight");
    (* Mouse *)
    ("KC_MS_U", "M↑"); ("KC_MS_D", "M↓"); ("KC_MS_L", "M←");
    ("KC_MS_R", "M→"); ("KC_BTN1", "M1"); ("KC_BTN2", "M2");
    ("KC_BTN3", "M3") ].

(** ** [escape_svg_text] *)

(** Python truthiness of a [str | None], and [text or default]. *)
Definition truthy (text : option pystr) : bool :=
  match text with
  | Some (_ :: _) => true
  | _ => false
  end.

Definition or_else (text : option pystr) (default : pystr) : pystr :=
  match text with
  | Some (c :: t) => c :: t
  | _ => default
  end.

Definition escape_svg_text (text : option pystr) : pystr :=
  if negb (truthy text) then or_else text []
  else
    let text := or_else text [] in
    (* Handle XML reserved characters *)
    let escaped := str_replace text "&" "&amp;" in
    let escaped := str_replace escaped "<" "&lt;" in
    let escaped := str_replace escaped ">" "&gt;" in
    let escaped := str_replace escaped [34] "&quot;" in
    let escaped := str_replace escaped [39] "&apos;" in
    escaped.

(** ** [parse_keycode] *)

(** One block of [parse_keycode]: [None] when its condition does not
    hold and control falls through to the next block, [Some r] when the
    block returns (or raises) [r]. *)
Definition rule := pystr -> option (res (pystr * pystr)).

Definition no_key_rule : rule := fun keycode =>
  if negb (truthy (Some keycode)) || str_eqb keycode "KC_NO"
  then Some (ret ([], []))
  else None.

(** Handle transparent keys *)
Definition transparent_rule : rule := fun keycode =>
  if str_eqb keycode "KC_TRNS" then Some (ret ("▽", "Transparent")) else None.

(** Handle modifier keys with other keys like LGUI(KC_S), LALT(KC_D) *)
Definition mod_combo_re : regex :=
  Grp (Cls (one_of "LR")
       @@ (Str "GUI" ||| Str "ALT" ||| Str "CTL" ||| Str "SFT"))
  @@ Str "(KC_" @@ Grp (Cls cls_upper_digit) @@ Str ")".

Definition mod_short : dict :=
  [ ("LGUI", "⌘"); ("RGUI", "⌘"); ("LALT", "⌥"); ("RALT", "⌥");
    ("LCTL", "⌃"); ("RCTL", "⌃"); ("LSFT", "⇧"); ("RSFT", "⇧") ].

Definition mod_name : dict :=
  [ ("LGUI", "Win"); ("RGUI", "Win"); ("LALT", "Alt"); ("RALT", "Alt");
    ("LCTL", "Ctrl"); ("RCTL", "Ctrl"); ("LSFT", "Shift");
    ("RSFT", "Shift") ].

Definition mod_combo_rule : rule := fun keycode =>
  match re_match mod_combo_re keycode with
  | Some mod_combo_match =>
      Some ('(mod_, key) <- unpack2 (groups mod_combo_match) ;;
            let symbol := dict_get mod_short mod_ (slice_to 4 mod_) in
            ret (symbol ++ key, dict_get mod_name mod_ mod_ ++ "+" ++ key))
  | None => None
  end.

(** Handle shifted keys like S(KC_Q) and LSFT(KC_Q) *)
Definition shift_re : regex :=
  (Opt (Str "L") @@ Str "SFT" ||| Str "S")
  @@ Str "(KC_" @@ Grp (Cls cls_upper_digit) @@ Str ")".

Definition shift_rule : rule := fun keycode =>
  match re_match shift_re keycode with
  | Some shift_match =>
      Some (key <- group shift_match 1 ;;
            ret ("⇧" ++ key, "Shift+" ++ key))
  | None => None
  end.

(** Handle layer tap keys like LT(5,KC_S) *)
Definition lt_re : regex :=
  Str "LT(" @@ Grp (Plus cls_digit) @@ Str ",KC_"
  @@ Grp (Cls cls_upper) @@ Str ")".

Definition lt_rule : rule := fun keycode =>
  match re_match lt_re keycode with
  | Some lt_match =>
      Some ('(layer, key) <- unpack2 (groups lt_match) ;;
            ret (upper key, "L" ++ layer ++ "/Tap"))
  | None => None
  end.

(** Handle modifier tap keys like LCTL_T(KC_D) *)
Definition mod_tap_re : regex :=
  Grp (Cls (one_of "LR")
       @@ (Str "CTL" ||| Str "ALT" ||| Str "SFT" ||| Str "GUI"))
  @@ Str "_T(KC_" @@ Grp (Cls cls_upper) @@ Str ")".

Definition mod_tap_short : dict :=
  [ ("LCTL", "Ctrl"); ("RCTL", "Ctrl"); ("LALT", "Alt"); ("RALT", "Alt");
    ("LSFT", "Shift"); ("RSFT", "Shift"); ("LGUI", "Win");
    ("RGUI", "Win") ].

Definition mod_tap_rule : rule := fun keycode =>
  match re_match mod_tap_re keycode with
  | Some mod_tap_match =>
      Some ('(mod_, key) <- unpack2 (groups mod_tap_match) ;;
            ret (upper key, dict_get mod_tap_short mod_ mod_ ++ "/Tap"))
  | None => None
  end.

(** Handle momentary layer keys like MO(3) *)
Definition mo_re : regex := Str "MO(" @@ Grp (Plus cls_digit) @@ Str ")".

Definition mo_rule : rule := fun keycode =>
  match re_match mo_re keycode with
  | Some mo_match =>
      Some (layer <- group mo_match 1 ;;
            ret ("MO" ++ layer, "Momentary L" ++ layer))
  | None => None
  end.

(** Handle layer switching like DF(0) *)
Definition df_re : regex := Str "DF(" @@ Grp (Plus cls_digit) @@ Str ")".

Definition df_rule : rule := fun keycode =>
  match re_match df_re keycode with
  | Some df_match =>
      Some (layer <- group df_match 1 ;;
            ret ("L" ++ layer, "Default L" ++ layer))
  | None => None
  end.

(** The blocks [if keycode == code: return short, long]. *)
Definition equals_rule (code short long : pystr) : rule := fun keycode =>
  if str_eqb keycode code then Some (ret (short, long)) else None.

Definition qk_rep_rule := equals_rule "QK_REP" "↻" "Repeat".
Definition qk_boot_rule := equals_rule "QK_BOOT" "BOOT" "Bootloader".
Definition qk_rbt_rule := equals_rule "QK_RBT" "RST" "Reset".
Definition ee_clr_rule := equals_rule "EE_CLR" "CLR" "EEPROM Clear".
Definition db_togg_rule := equals_rule "DB_TOGG" "DBG" "Debug Toggle".
Definition sc_lspo_rule := equals_rule "SC_LSPO" "L(" "Space Cadet Left".
Definition sc_rspc_rule := equals_rule "SC_RSPC" "R)" "Space Cadet Right".

(** Handle numpad keys *)
Definition numpad_keys : dict :=
  [ ("KC_P0", "0"); ("KC_P1", "1"); ("KC_P2", "2"); ("KC_P3", "3");
    ("KC_P4", "4"); ("KC_P5", "5"); ("KC_P6", "6"); ("KC_P7", "7");
    ("KC_P8", "8"); ("KC_P9", "9"); ("KC_PDOT", "."); ("KC_PCMM", ",");
    ("KC_PSLS", "/"); ("KC_PAST", [42]); ("KC_PMNS", "-");
    ("KC_PPLS", "+"); ("KC_PEQL", "="); ("KC_PENT", "↵") ].

Definition numpad_rule : rule := fun keycode =>
  if dict_mem keycode numpad_keys then
    Some (short <- dict_index numpad_keys keycode ;;
          again <- dict_index numpad_keys keycode ;;
          ret (short, "Numpad " ++ again))
  else None.

(** Handle ANY() keycodes *)
Definition any_re : regex :=
  Str "ANY(" @@ Grp (Plus cls_not_rparen) @@ Str ")".

Definition any_rule : rule := fun keycode =>
  match re_match any_re keycode with
  | Some any_match =>
      Some (inner <- group any_match 1 ;;
            ret (slice_to 6 inner, "Any: " ++ inner))
  | None => None
  end.

(** Handle remaining LSFT() keycodes (fallback) *)
Definition lsft_re : regex :=
  Str "LSFT(" @@ Grp (Plus cls_not_rparen) @@ Str ")".

Definition lsft_rule : rule := fun keycode =>
  match re_match lsft_re keycode with
  | Some lsft_match =>
      Some (inner <- group lsft_match 1 ;;
            if startswith inner "KC_" then
              let inner_key := slice_from 3 inner in
              (* Handle special keys that should show their full name *)
              if str_eqb inner_key "TAB" then ret ("⇧⇥", "Shift+Tab")
              else ret ("⇧" ++ slice_to 4 inner_key, "Shift+" ++ inner_key)
            else ret ("⇧" ++ slice_to 4 inner, "Shift+" ++ inner))
  | None => None
  end.

(** Check standard keycode map *)
Definition table_rule : rule := fun keycode =>
  if dict_mem keycode QMK_KEYCODE_MAP then
    Some (label <- dict_index QMK_KEYCODE_MAP keycode ;;
          ret (label, keycode))
  else None.

(** Handle KC_ prefixed keys that aren't in the map *)
Definition special_mappings : dict :=
  [ ("TAB", "⇥"); ("SPC", "␣"); ("ENT", "↵"); ("BSPC", "⌫");
    ("DEL", "⌦"); ("ESC", "⎋"); ("CAPS", "⇪") ].

Definition kc_prefix_rule : rule := fun keycode =>
  if startswith keycode "KC_" then
    Some (let short := slice_from 3 keycode in
          (* Special handling for common keys *)
          if dict_mem short special_mappings then
            label <- dict_index special_mappings short ;;
            ret (label, keycode)
          else ret (slice_to 6 short, keycode))
  else None.

(** Final fallback *)
Definition final_fallback (keycode : pystr) : res (pystr * pystr) :=
  ret (slice_to 8 keycode, keycode).

(** The blocks are tried in source order and the first that returns
    decides the result. *)
Fixpoint first_match (rules : list rule)
  (fallback : pystr -> res (pystr * pystr)) (keycode : pystr)
  : res (pystr * pystr) :=
  match rules with
  | [] => fallback keycode
  | r :: rest =>
      match r keycode with
      | Some result => result
      | None => first_match rest fallback keycode
      end
  end.

Definition decoder_chain : list rule :=
  [ no_key_rule; transparent_rule; mod_combo_rule; shift_rule; lt_rule;
    mod_tap_rule; mo_rule; df_rule; qk_rep_rule; qk_boot_rule; qk_rbt_rule;
    ee_clr_rule; db_togg_rule; sc_lspo_rule; sc_rspc_rule; numpad_rule;
    any_rule; lsft_rule; table_rule; kc_prefix_rule ].

Definition parse_keycode (keycode : pystr) : res (pystr * pystr) :=
  first_match decoder_chain final_fallback keycode.

(** ** [generate_layer_svg] *)

(** The values [json.load] produces: [None], booleans, integers, floats
    (kept as the bits of the double), strings, lists, and dictionaries
    with string keys.  A dictionary holds each key once. *)
Set Warnings "-register-all".
Inductive json :=
| JNull
| JBool (b : bool)
| JInt (z : Z)
| JFloat (bits : N)
| JStr (s : pystr)
| JList (l : list json)
| JDict (d : list (pystr * json)).
Set Warnings "register-all".

Definition jdict := list (pystr * json).

Fixpoint jdict_find (d : jdict) (k : pystr) : option json :=
  match d with
  | [] => None
  | (k', v) :: d' => if str_eqb k k' then Some v else jdict_find d' k
  end.

(** [d.get(k, default)] *)
Definition jdict_get (d : jdict) (k : pystr) (default : json) : json :=
  match jdict_find d k with Some v => v | None => default end.

(** [l[i]] for a Python integer [i]: a negative index counts from the
    end, and an index outside the list raises [IndexError]. *)
Definition list_index (l : list json) (i : Z) : res json :=
  let j := (if i <? 0 then i + Z.of_nat (length l) else i)%Z in
  if (j <? 0)%Z then raise IndexError
  else match nth_error l (Z.to_nat j) with
       | Some v => ret v
       | None => raise IndexError
       end.

(** [str(n)] for integers: the decimal digits, after a minus sign for a
    negative number. *)
Fixpoint uint_chars (u : Decimal.uint) : pystr :=
  match u with
  | Decimal.Nil => []
  | Decimal.D0 u => 48 :: uint_chars u
  | Decimal.D1 u => 49 :: uint_chars u
  | Decimal.D2 u => 50 :: uint_chars u
  | Decimal.D3 u => 51 :: uint_chars u
  | Decimal.D4 u => 52 :: uint_chars u
  | Decimal.D5 u => 53 :: uint_chars u
  | Decimal.D6 u => 54 :: uint_chars u
  | Decimal.D7 u => 55 :: uint_chars u
  | Decimal.D8 u => 56 :: uint_chars u
  | Decimal.D9 u => 57 :: uint_chars u
  end.

Definition str_of_nat (n : nat) : pystr := uint_chars (Nat.to_uint n).

Definition str_of_int (z : Z) : pystr :=
  match z with
  | Z0 => "0"
  | Zpos p => uint_chars (Pos.to_uint p)
  | Zneg p => "-" ++ uint_chars (Pos.to_uint p)
  end.

(** The placeholders [{{KEY_i}}] and [{{SUB_i}}] of the template. *)
Definition key_placeholder (i : nat) : pystr :=
  "{{KEY_" ++ str_of_nat i ++ "}}".

Definition sub_placeholder (i : nat) : pystr :=
  "{{SUB_" ++ str_of_nat i ++ "}}".

Section GenerateLayerSvg.

(** [str(v)] for a value that is neither a string nor [None]: Python's
    own conversion, which the source does not define. *)
Variable py_str : json -> pystr.

(** Ensure keycode is a string *)
Definition keycode_text (keycode : json) : pystr :=
  match keycode with
  | JStr s => s
  | JNull => []
  | v => py_str v
  end.

(** Fill in key labels: the loop over [enumerate(layer)], from index
    [i], which stops at index 60. *)
Fixpoint fill_keys (i : nat) (layer : list json) (svg_content : pystr)
  : res pystr :=
  match layer with
  | [] => ret svg_content
  | keycode :: rest =>
      if (60 <=? i)%nat then ret svg_content  (* Safety check for 5x12 layout *)
      else
        let keycode := keycode_text keycode in
        '(label, _) <- parse_keycode keycode ;;
        (* Replace placeholders with escaped text *)
        let escaped_label := escape_svg_text (Some label) in
        let svg_content :=
          str_replace svg_content (key_placeholder i) escaped_label in
        let svg_content := str_replace svg_content (sub_placeholder i) [] in
        fill_keys (S i) rest svg_content
  end.

(** Clear any remaining placeholders: the loop over [range(60)]. *)
Definition clear_step (svg_content : pystr) (i : nat) : pystr :=
  let svg_content := str_replace svg_content (key_placeholder i) [] in
  str_replace svg_content (sub_placeholder i) [].

Definition clear_placeholders (svg_content : pystr) : pystr :=
  fold_left clear_step (seq 0 60) svg_content.

(** Ensure we have string values *)
Definition name_or_unknown (v : json) : pystr :=
  match v with
  | JStr s => s
  | _ => "Unknown"
  end.

Definition generate_layer_svg (template : pystr) (keyboard_data : jdict)
  (layer_index : Z) : res (option pystr) :=
  let layers := jdict_get keyboard_data "layers" (JList []) in
  match layers with
  | JList layers =>
      if (Z.of_nat (length layers) <=? layer_index)%Z then ret None
      else
        layer <- list_index layers layer_index ;;
        match layer with
        | JList layer =>
            let keyboard_name :=
              name_or_unknown
                (jdict_get keyboard_data "keymap" (JStr "Unknown")) in
            let layout_name :=
              name_or_unknown
                (jdict_get keyboard_data "layout" (JStr "Unknown")) in
            (* Create a copy of the template *)
            let svg_content := template in
            (* Set title and subtitle *)
            let layer_title :=
              keyboard_name ++ " - Layer " ++ str_of_int layer_index in
            let layer_subtitle := "Layout: " ++ layout_name in
            let svg_content :=
              str_replace svg_content "{{LAYER_TITLE}}"
                (escape_svg_text (Some layer_title)) in
            let svg_content :=
              str_replace svg_content "{{LAYER_SUBTITLE}}"
                (escape_svg_text (Some layer_subtitle)) in
            svg_content <- fill_keys 0 layer svg_content ;;
            ret (Some (clear_placeholders svg_content))
        | _ => ret None
        end
  | _ => ret None
  end.

End GenerateLayerSvg.

(** ** The test tables of the source *)

Definition svg_escaping_cases : list (pystr * pystr) :=
  [ ("&", "&amp;"); ("<", "&lt;"); (">", "&gt;"); ([34], "&quot;");
    ([39], "&apos;"); ("A&B", "A&amp;B"); ("<test>", "&lt;test&gt;");
    ("Quote: " ++ [34] ++ "Hello" ++ [34],
     "Quote: &quot;Hello&quot;");
    ("Normal text", "Normal text"); ([], []) ].

Definition keycode_parsing_cases : list (pystr * (pystr * pystr)) :=
  [ ("LGUI(KC_S)", ("⌘S", "Win+S")); ("LALT(KC_D)", ("⌥D", "Alt+D"));
    ("LCTL(KC_F)", ("⌃F", "Ctrl+F")); ("RCTL(KC_J)", ("⌃J", "Ctrl+J"));
    ("RALT(KC_K)", ("⌥K", "Alt+K")); ("RGUI(KC_L)", ("⌘L", "Win+L"));
    ("LSFT(KC_TAB)", ("⇧⇥", "Shift+Tab")); ("LSFT(KC_Q)", ("⇧Q", "Shift+Q"));
    ("S(KC_Q)", ("⇧Q", "Shift+Q")); ("QK_REP", ("↻", "Repeat"));
    ("QK_BOOT", ("BOOT", "Bootloader"));
    ("SC_LSPO", ("L(", "Space Cadet Left")); ("KC_TAB", ("⇥", "KC_TAB"));
    ("KC_SPC", ("␣", "KC_SPC")); ("KC_A", ("A", "KC_A"));
    ("KC_TRNS", ("▽", "Transparent")); ("MO(3)", ("MO3", "Momentary L3")) ].

(** ** Reference definitions for the statements below *)

(** The character-wise escaping: each reserved character becomes its
    named entity, every other character is kept. *)
Definition escape_char (c : codepoint) : pystr :=
  if c =? 38 then "&amp;"
  else if c =? 60 then "&lt;"
  else if c =? 62 then "&gt;"
  else if c =? 34 then "&quot;"
  else if c =? 39 then "&apos;"
  else [c].

(** The five reserved characters: ampersand, less-than, greater-than,
    double quote and apostrophe. *)
Definition reserved : list codepoint := [38; 60; 62; 34; 39].

(** The modifier names of the combinators: a hand and a modifier. *)
Inductive hand := LeftHand | RightHand.
Inductive modifier := GUI | ALT | CTL | SFT.

Definition hand_letter (h : hand) : pystr :=
  match h with LeftHand => "L" | RightHand => "R" end.

Definition modifier_letters (m : modifier) : pystr :=
  match m with GUI => "GUI" | ALT => "ALT" | CTL => "CTL" | SFT => "SFT" end.

Definition modifier_code (h : hand) (m : modifier) : pystr :=
  hand_letter h ++ modifier_letters m.

Definition symbol (m : modifier) : pystr :=
  match m with GUI => "⌘" | ALT => "⌥" | CTL => "⌃" | SFT => "⇧" end.

Definition name (m : modifier) : pystr :=
  match m with GUI => "Win" | ALT => "Alt" | CTL => "Ctrl" | SFT => "Shift" end.

(** What a pattern denotes: [matches r w g g'] when [r] can match
    exactly the text [w], taking the closed groups from [g] to [g']. *)
Fixpoint matches (r : regex) (w : pystr) (g g' : list pystr) : Prop :=
  match r with
  | Str l => w = l /\ g' = g
  | Cls p => exists c, w = [c] /\ p c = true /\ g' = g
  | Seq r1 r2 =>
      exists w1 w2 g1,
        w = w1 ++ w2 /\ matches r1 w1 g g1 /\ matches r2 w2 g1 g'
  | Alt r1 r2 => matches r1 w g g' \/ matches r2 w g g'
  | Opt r1 => matches r1 w g g' \/ (w = [] /\ g' = g)
  | Plus p => w <> [] /\ forallb p w = true /\ g' = g
  | Grp r1 => exists g1, matches r1 w g g1 /\ g' = g1 ++ [w]
  end.

(** [stops p s]: a greedy repetition of the class [p] cannot go on at
    the start of [s]. *)
Definition stops (p : codepoint -> bool) (s : pystr) : Prop :=
  match s with
  | c :: _ => p c = false
  | [] => True
  end.

(** The shape shared by the patterns of [MO], [DF], [ANY] and [LSFT]:
    a literal prefix, a group of one or more characters of a class, and
    the closing parenthesis. *)
Definition wrap_re (pre : pystr) (p : codepoint -> bool) : regex :=
  Str pre @@ Grp (Plus p) @@ Str ")".

(** A single uppercase letter or digit, the class [[A-Z0-9]]. *)
Definition upper_alnum (c : codepoint) : Prop :=
  65 <= c <= 90 \/ 48 <= c <= 57.

(** The three spellings accepted by the shift pattern. *)
Definition shift_prefixes : list pystr := ["LSFT"; "SFT"; "S"].

(** The labels of the fallback [LSFT(inner)] block, from [inner]. *)
Definition lsft_labels (inner : pystr) : pystr * pystr :=
  if startswith inner "KC_" then
    let inner_key := slice_from 3 inner in
    if str_eqb inner_key "TAB" then ("⇧⇥", "Shift+Tab")
    else ("⇧" ++ slice_to 4 inner_key, "Shift+" ++ inner_key)
  else ("⇧" ++ slice_to 4 inner, "Shift+" ++ inner).

(** [layer_label s short]: [s] begins with [MO(n)] or [DF(n)] and
    [short] is the label that block builds from the layer digits [n]. *)
Definition layer_label (s short : pystr) : Prop :=
  exists n rest,
    n <> [] /\ forallb cls_digit n = true
    /\ ((s = "MO(" ++ n ++ ")" ++ rest /\ short = "MO" ++ n)
        \/ (s = "DF(" ++ n ++ ")" ++ rest /\ short = "L" ++ n)).

(** What every block of the decoder guarantees when it returns [r] on
    the input [s]: a pair, whose short label is empty only for three
    inputs and longer than 8 only as a layer label. *)
Definition returns_label (s : pystr) (r : res (pystr * pystr)) : Prop :=
  exists short long,
    r = ret (short, long)
    /\ (short = [] -> s = [] \/ s = "KC_NO" \/ s = "KC_")
    /\ ((length short <= 8)%nat \/ layer_label s short).

(** A table entry whose label has between one and six characters. *)
Definition label_ok (kv : pystr * pystr) : bool :=
  (1 <=? length (snd kv))%nat && (length (snd kv) <=? 6)%nat.

(** The eight combinator blocks of [parse_keycode], in source order. *)
Inductive combinator_kind :=
| ModKey | Shift | LayerTap | ModTap | Momentary | DefaultLayer
| AnyWrapper | ShiftWrapper.

Definition rule_of (k : combinator_kind) : rule :=
  match k with
  | ModKey => mod_combo_rule
  | Shift => shift_rule
  | LayerTap => lt_rule
  | ModTap => mod_tap_rule
  | Momentary => mo_rule
  | DefaultLayer => df_rule
  | AnyWrapper => any_rule
  | ShiftWrapper => lsft_rule
  end.

(** The well-formed combinators of each kind: the complete syntax, up
    to and including the closing parenthesis. *)
Inductive combinator : combinator_kind -> pystr -> Prop :=
| comb_mod_key (h : hand) (m : modifier) (c : codepoint) :
    cls_upper_digit c = true ->
    combinator ModKey (modifier_code h m ++ "(KC_" ++ [c] ++ ")")
| comb_shift (pre : pystr) (c : codepoint) :
    In pre shift_prefixes -> cls_upper_digit c = true ->
    combinator Shift (pre ++ "(KC_" ++ [c] ++ ")")
| comb_layer_tap (n : pystr) (c : codepoint) :
    n <> [] -> forallb cls_digit n = true -> cls_upper c = true ->
    combinator LayerTap ("LT(" ++ n ++ ",KC_" ++ [c] ++ ")")
| comb_mod_tap (h : hand) (m : modifier) (c : codepoint) :
    cls_upper c = true ->
    combinator ModTap (modifier_code h m ++ "_T(KC_" ++ [c] ++ ")")
| comb_momentary (n : pystr) :
    n <> [] -> forallb cls_digit n = true ->
    combinator Momentary ("MO(" ++ n ++ ")")
| comb_default_layer (n : pystr) :
    n <> [] -> forallb cls_digit n = true ->
    combinator DefaultLayer ("DF(" ++ n ++ ")")
| comb_any (inner : pystr) :
    inner <> [] -> forallb cls_not_rparen inner = true ->
    combinator AnyWrapper ("ANY(" ++ inner ++ ")")
| comb_shift_wrapper (inner : pystr) :
    inner <> [] -> forallb cls_not_rparen inner = true ->
    combinator ShiftWrapper ("LSFT(" ++ inner ++ ")").

(** The names of the five entities, after their ampersand. *)
Definition entity_tails : list pystr :=
  ["amp;"; "lt;"; "gt;"; "quot;"; "apos;"].

(** The number of occurrences of the character [c] in [s]. *)
Definition occurrences (c : codepoint) (s : pystr) : nat :=
  length (filter (N.eqb c) s).

(** The keys of [QMK_KEYCODE_MAP] that an earlier block of the decoder
    answers: the table's entry for them is never returned. *)
Definition shadowed_keys : list pystr :=
  ["KC_TRNS"; "DF(0)"; "DF(1)"; "DF(2)"; "QK_BOOT"; "DB_TOGG"].

(** [a == b] on results of the decoder. *)
Definition result_eqb (a b : res (pystr * pystr)) : bool :=
  match a, b with
  | inr (s1, l1), inr (s2, l2) => str_eqb s1 s2 && str_eqb l1 l2
  | _, _ => false
  end.

(** [clash a b]: the strings differ at a position both have, so that
    neither begins the other. *)
Fixpoint clash (a b : pystr) : bool :=
  match a, b with
  | x :: a', y :: b' => if x =? y then clash a' b' else true
  | _, _ => false
  end.

(** The placeholders [generate_layer_svg] replaces. *)
Definition all_placeholders : list pystr :=
  "{{LAYER_TITLE}}" :: "{{LAYER_SUBTITLE}}"
  :: map key_placeholder (seq 0 60) ++ map sub_placeholder (seq 0 60).

(** A placeholder is two opening braces followed by text without one. *)
Definition placeholder_shape (ph : pystr) : bool :=
  match ph with
  | x :: y :: b => (x =? 123) && (y =? 123) && negb (existsb (N.eqb 123) b)
  | _ => false
  end.

(** [selected_layer data i layer]: [data] has a list under [layers],
    and [layer] is the list found there at the index [i], which is below
    the number of layers (a negative [i] counts from the end). *)
Definition selected_layer (keyboard_data : jdict) (layer_index : Z)
  (layer : list json) : Prop :=
  exists layers,
    jdict_find keyboard_data "layers" = Some (JList layers)
    /\ (layer_index < Z.of_nat (length layers))%Z
    /\ list_index layers layer_index = ret (JList layer).

(** The names shown in the title and the subtitle. *)
Definition keyboard_name_of (keyboard_data : jdict) : pystr :=
  name_or_unknown (jdict_get keyboard_data "keymap" (JStr "Unknown")).

Definition layout_name_of (keyboard_data : jdict) : pystr :=
  name_or_unknown (jdict_get keyboard_data "layout" (JStr "Unknown")).

Section LayerReference.

Variable py_str : json -> pystr.

(** The short label of a key of the layer. *)
Definition short_label (keycode : json) : pystr :=
  match parse_keycode (keycode_text py_str keycode) with
  | inr (label, _) => label
  | inl _ => []
  end.

(** What stands in the place of [{{KEY_i}}]: the escaped short label of
    the layer's key [i], or nothing when the layer has no such key. *)
Definition key_cell (layer : list json) (i : nat) : pystr :=
  match nth_error layer i with
  | Some keycode => escape_svg_text (Some (short_label keycode))
  | None => []
  end.

End LayerReference.

(** ** Proof automation *)

Arguments cls_upper c : simpl never.
Arguments cls_upper_digit c : simpl never.
Arguments cls_digit c : simpl never.
Arguments cls_not_rparen c : simpl never.

(** Takes apart the existentials, conjunctions and disjunctions among
    the hypotheses. *)
Ltac break :=
  repeat match goal with
    | H : exists _, _ |- _ => destruct H
    | H : _ /\ _ |- _ => destruct H
    | H : _ \/ _ |- _ => destruct H
    end.

(** Picks the hand and modifier of a goal about a modifier combinator. *)
Ltac pick_modifier c rest :=
  let fin := split; [reflexivity | split; [assumption | reflexivity]] in
  first
    [ exists LeftHand, GUI, c, rest; fin | exists LeftHand, ALT, c, rest; fin
    | exists LeftHand, CTL, c, rest; fin | exists LeftHand, SFT, c, rest; fin
    | exists RightHand, GUI, c, rest; fin
    | exists RightHand, ALT, c, rest; fin
    | exists RightHand, CTL, c, rest; fin
    | exists RightHand, SFT, c, rest; fin ].

(** A label built by a block from fixed text: not empty, at most eight
    characters. *)
Ltac fixed_label :=
  eexists; eexists; split; [reflexivity|];
  split; [discriminate | left; simpl; lia].

Ltac reassoc := repeat rewrite <- app_assoc.

(** * Properties *)

Example literal_codepoints :
  "A&" = [65; 38] /\ "⌘" = [8984] /\ "▽" = [9661] /\ "é" = [233]
  /\ length "⇧⇥" = 2%nat.
Proof. repeat split. Qed.

Example tables_have_distinct_keys :
  forallb distinct_keys
    [QMK_KEYCODE_MAP; mod_short; mod_name; mod_tap_short; numpad_keys;
     special_mappings] = true.
Proof. reflexivity. Qed.

(** Every case of the table of [test_svg_escaping] gives the expected
    text. *)
Example test_svg_escaping_passes :
  Forall (fun c => escape_svg_text (Some (fst c)) = snd c) svg_escaping_cases.
Proof. repeat constructor. Qed.

(** Every case of the table of [test_keycode_parsing] gives the
    expected pair. *)
Example test_keycode_parsing_passes :
  Forall (fun c => parse_keycode (fst c) = ret (snd c)) keycode_parsing_cases.
Proof. repeat constructor. Qed.

(** ** Strings *)

Lemma str_eqb_eq (a b : pystr) : str_eqb a b = true <-> a = b.
Proof.
  revert b; induction a as [|x a IH]; intros [|y b]; simpl;
    try (split; [discriminate | congruence]); [tauto|].
  rewrite andb_true_iff, N.eqb_eq, IH.
  split; [intros [-> ->]; reflexivity | intros [= -> ->]; auto].
Qed.

Lemma str_eqb_refl (a : pystr) : str_eqb a a = true.
Proof. now apply str_eqb_eq. Qed.

Lemma strip_prefix_app (p s : pystr) : strip_prefix p (p ++ s) = Some s.
Proof.
  induction p as [|x p IH]; simpl; [reflexivity|].
  now rewrite N.eqb_refl.
Qed.

Lemma strip_prefix_inv (p s t : pystr) :
  strip_prefix p s = Some t -> s = p ++ t.
Proof.
  revert s; induction p as [|x p IH]; intros s; simpl.
  - now intros [= ->].
  - destruct s as [|y s]; [discriminate|].
    destruct (N.eqb_spec y x) as [->|]; [|discriminate].
    intros H; f_equal; auto.
Qed.

Lemma startswith_inv (s p : pystr) :
  startswith s p = true -> s = p ++ slice_from (length p) s.
Proof.
  unfold startswith, slice_from.
  destruct (strip_prefix p s) as [t|] eqn:E; [|discriminate].
  intros _. apply strip_prefix_inv in E; subst s.
  now rewrite skipn_app, skipn_all, Nat.sub_diag.
Qed.

Lemma dict_find_In (d : dict) (k v : pystr) :
  dict_find d k = Some v -> In (k, v) d.
Proof.
  induction d as [|[k' v'] d IH]; simpl; [discriminate|].
  destruct (str_eqb k k') eqn:E.
  - apply str_eqb_eq in E; subst. intros [= ->]; auto.
  - auto.
Qed.

(** ** [escape_svg_text] *)

Lemma flat_map_flat_map (A B C : Type) (f : A -> list B) (h : B -> list C)
  (l : list A) :
  flat_map h (flat_map f l) = flat_map (fun x => flat_map h (f x)) l.
Proof.
  induction l as [|x l IH]; simpl; [reflexivity|].
  now rewrite flat_map_app, IH.
Qed.

(** Replacing a one-character [old] is a character-wise map. *)
Lemma str_replace_char (s : pystr) (c : codepoint) (new : pystr) :
  str_replace s [c] new = flat_map (fun x => if x =? c then new else [x]) s.
Proof.
  unfold str_replace.
  induction s as [|x s IH]; simpl; [reflexivity|].
  unfold startswith; simpl.
  destruct (x =? c); simpl; now rewrite IH.
Qed.

Lemma escape_char_cases (c : codepoint) :
  (In c reserved /\ In 38 (escape_char c) /\ (4 <= length (escape_char c))%nat
   /\ Forall (fun x => ~ In x [60; 62; 34; 39]) (escape_char c))
  \/ (~ In c reserved /\ escape_char c = [c]).
Proof.
  unfold escape_char, reserved.
  destruct (N.eqb_spec c 38) as [->|n1].
  { left; repeat split; simpl; auto; try lia.
    repeat constructor; simpl; intuition discriminate. }
  destruct (N.eqb_spec c 60) as [->|n2].
  { left; repeat split; simpl; auto; try lia.
    repeat constructor; simpl; intuition discriminate. }
  destruct (N.eqb_spec c 62) as [->|n3].
  { left; repeat split; simpl; auto; try lia.
    repeat constructor; simpl; intuition discriminate. }
  destruct (N.eqb_spec c 34) as [->|n4].
  { left; repeat split; simpl; auto; try lia.
    repeat constructor; simpl; intuition discriminate. }
  destruct (N.eqb_spec c 39) as [->|n5].
  { left; repeat split; simpl; auto; try lia.
    repeat constructor; simpl; intuition discriminate. }
  right; split; [|reflexivity].
  simpl; intuition congruence.
Qed.

(** The five replacements in sequence amount to one pass of
    [escape_char]: no later replacement touches what an earlier one
    wrote, since the entities contain none of the four later characters. *)
Lemma escape_svg_text_flat_map (s : pystr) :
  escape_svg_text (Some s) = flat_map escape_char s.
Proof.
  destruct s as [|c0 s0]; [reflexivity|].
  unfold escape_svg_text; cbn [truthy negb or_else].
  generalize (c0 :: s0); intros s.
  change "&" with [38]; change "<" with [60]; change ">" with [62].
  rewrite !str_replace_char, !flat_map_flat_map.
  apply flat_map_ext; intros c. unfold escape_char.
  destruct (N.eqb_spec c 38) as [->|n1]; [reflexivity|].
  cbn [flat_map app]; rewrite !app_nil_r.
  destruct (N.eqb_spec c 60) as [->|n2]; [reflexivity|].
  cbn [flat_map app]; rewrite !app_nil_r.
  destruct (N.eqb_spec c 62) as [->|n3]; [reflexivity|].
  cbn [flat_map app]; rewrite !app_nil_r.
  destruct (N.eqb_spec c 34) as [->|n4]; [reflexivity|].
  cbn [flat_map app]; rewrite !app_nil_r.
  destruct (N.eqb_spec c 39) as [->|n5]; reflexivity.
Qed.

Lemma escape_length (s : pystr) :
  (length s <= length (flat_map escape_char s))%nat
  /\ (In 38 s -> (length s < length (flat_map escape_char s))%nat).
Proof.
  induction s as [|c s [IH1 IH2]]; simpl; [split; [lia | tauto]|].
  rewrite length_app.
  destruct (escape_char_cases c) as [(_ & _ & Hl & _) | [Hn ->]].
  - split; [lia|]. intros _; lia.
  - simpl; split; [lia|]. intros [->|H].
    + exfalso; apply Hn; simpl; auto.
    + apply IH2 in H; lia.
Qed.

Lemma escape_keeps_amp (s : pystr) :
  In 38 s -> In 38 (flat_map escape_char s).
Proof.
  intros H. apply in_flat_map. exists 38; split; [exact H|].
  simpl; auto.
Qed.

(** C2: [escape_svg_text] is the character-wise map [escape_char] (the
    five replacements applied in source order, the ampersand first);
    so its output holds no [<], [>], double quote or apostrophe, and an
    ampersand of the input shows up in the output as [&amp;] between
    the escaped text before it and the escaped text after it. *)
Theorem escape_svg_text_charwise : forall s : pystr,
  escape_svg_text (Some s)
  = str_replace (str_replace (str_replace (str_replace (str_replace
      s "&" "&amp;") "<" "&lt;") ">" "&gt;") [34] "&quot;") [39] "&apos;"
  /\ escape_svg_text (Some s) = flat_map escape_char s
  /\ Forall (fun c => ~ In c [60; 62; 34; 39]) (escape_svg_text (Some s))
  /\ forall a b : pystr,
       escape_svg_text (Some (a ++ [38] ++ b))
       = escape_svg_text (Some a) ++ "&amp;" ++ escape_svg_text (Some b).
Proof.
  intros s. split; [|split; [|split]].
  - destruct s; reflexivity.
  - apply escape_svg_text_flat_map.
  - rewrite escape_svg_text_flat_map.
    induction s as [|c s IH]; simpl; [constructor|].
    apply Forall_app; split; [|exact IH].
    destruct (escape_char_cases c) as [(_ & _ & _ & H) | [Hn ->]];
      [exact H|].
    constructor; [|constructor].
    intros Hin; apply Hn; unfold reserved; simpl in *; tauto.
  - intros a b. rewrite !escape_svg_text_flat_map, !flat_map_app.
    reflexivity.
Qed.

(** C9: [escape_svg_text] is not idempotent: escaping the text [&amp;]
    again changes it, and so does escaping again the escaped form of
    any string that holds an ampersand. *)
Theorem escape_svg_text_not_idempotent :
  (exists s : pystr,
     escape_svg_text (Some (escape_svg_text (Some s)))
     <> escape_svg_text (Some s))
  /\ escape_svg_text (Some (escape_svg_text (Some "&amp;")))
     <> escape_svg_text (Some "&amp;")
  /\ forall s : pystr, In 38 s ->
       escape_svg_text (Some (escape_svg_text (Some s)))
       <> escape_svg_text (Some s).
Proof.
  assert (G : forall s : pystr, In 38 s ->
            escape_svg_text (Some (escape_svg_text (Some s)))
            <> escape_svg_text (Some s)).
  { intros s H E. rewrite !escape_svg_text_flat_map in E.
    apply escape_keeps_amp in H.
    apply (proj2 (escape_length _)) in H.
    rewrite E in H; lia. }
  split; [|split].
  - exists "&". apply G; simpl; auto.
  - apply G; simpl; auto.
  - exact G.
Qed.

Lemma escape_svg_text_not_idempotent_witness :
  In 38 "A&B"
  /\ escape_svg_text (Some (escape_svg_text (Some "A&B")))
     <> escape_svg_text (Some "A&B").
Proof.
  split; [simpl; auto|].
  apply (proj2 (proj2 escape_svg_text_not_idempotent)); simpl; auto.
Defined.

(** C10: on a non-empty string that holds none of the five reserved
    characters, [escape_svg_text] changes nothing. *)
Theorem escape_svg_text_safe_id : forall s : pystr,
  s <> [] ->
  (forall c, In c s -> ~ In c reserved) ->
  escape_svg_text (Some s) = s.
Proof.
  intros s _ H. rewrite escape_svg_text_flat_map.
  induction s as [|c s IH]; simpl; [reflexivity|].
  destruct (escape_char_cases c) as [(Hr & _) | [_ ->]].
  - exfalso; apply (H c); simpl; auto.
  - simpl; f_equal; apply IH. intros x Hx; apply H; simpl; auto.
Qed.

Lemma escape_svg_text_safe_id_witness :
  escape_svg_text (Some "Normal text") = "Normal text".
Proof.
  apply escape_svg_text_safe_id.
  - discriminate.
  - intros c Hc; unfold reserved; simpl in Hc; simpl.
    intuition (subst; discriminate).
Defined.

(** ** The matcher *)

Section MatcherFacts.

Variable A : Type.

Lemma rep_sound (p : codepoint -> bool) (s : pystr)
  (k : pystr -> pystr -> option A) (v : A) :
  rep p s k = Some v ->
  exists w s', s = w ++ s' /\ forallb p w = true /\ k w s' = Some v.
Proof.
  revert k; induction s as [|c s IH]; intros k; simpl.
  - intros H; exists [], []; auto.
  - destruct (p c) eqn:Hc.
    + destruct (rep p s (fun w s' => k (c :: w) s')) as [v'|] eqn:E.
      * intros [= ->]. apply IH in E as (w & s' & -> & Hw & Hk).
        exists (c :: w), s'; simpl; rewrite Hc; auto.
      * intros H; exists [], (c :: s); auto.
    + intros H; exists [], (c :: s); auto.
Qed.

(** A successful run of the matcher splits the string into the matched
    text and the rest, and the matched text is one the pattern denotes. *)
Lemma mt_sound (r : regex) :
  forall (s : pystr) (g : list pystr)
         (k : pystr -> pystr -> list pystr -> option A) (v : A),
    mt r s g k = Some v ->
    exists w s' g',
      s = w ++ s' /\ matches r w g g' /\ k w s' g' = Some v.
Proof.
  induction r as [l|p|r1 IH1 r2 IH2|r1 IH1 r2 IH2|r1 IH1|p|r1 IH1];
    intros s g k v; simpl.
  - destruct (strip_prefix l s) as [s'|] eqn:E; [|discriminate].
    apply strip_prefix_inv in E. intros H; exists l, s', g; auto.
  - destruct s as [|c s]; [discriminate|].
    destruct (p c) eqn:Hc; [|discriminate].
    intros H; exists [c], s, g; repeat split; eauto.
  - intros H. apply IH1 in H as (w1 & s1 & g1 & -> & M1 & H).
    apply IH2 in H as (w2 & s2 & g2 & -> & M2 & H).
    exists (w1 ++ w2), s2, g2; rewrite app_assoc; repeat split; eauto 10.
  - destruct (mt r1 s g k) as [v'|] eqn:E.
    + intros [= ->]. apply IH1 in E as (w & s' & g' & ? & ? & ?). eauto 10.
    + intros H. apply IH2 in H as (w & s' & g' & ? & ? & ?). eauto 10.
  - destruct (mt r1 s g k) as [v'|] eqn:E.
    + intros [= ->]. apply IH1 in E as (w & s' & g' & ? & ? & ?). eauto 10.
    + intros H. exists [], s, g; auto.
  - destruct s as [|c s]; [discriminate|].
    destruct (p c) eqn:Hc; [|discriminate].
    intros H. apply rep_sound in H as (w & s' & -> & Hw & H).
    exists (c :: w), s', g; simpl; rewrite Hc.
    repeat split; auto; discriminate.
  - intros H. apply IH1 in H as (w & s' & g' & -> & M & H).
    exists w, s', (g' ++ [w]); eauto.
Qed.

Lemma rep_greedy (p : codepoint -> bool) (l rest : pystr)
  (k : pystr -> pystr -> option A) (v : A) :
  forallb p l = true -> stops p rest -> k l rest = Some v ->
  rep p (l ++ rest) k = Some v.
Proof.
  revert k; induction l as [|c l IH]; intros k; simpl.
  - intros _ Hs Hk. destruct rest as [|c rest]; simpl in *; [exact Hk|].
    now rewrite Hs.
  - intros H Hs Hk. apply andb_true_iff in H as [Hc Hl].
    rewrite Hc, (IH (fun w s' => k (c :: w) s')); auto.
Qed.

Lemma mt_Plus_greedy (p : codepoint -> bool) (l rest : pystr)
  (g : list pystr) (k : pystr -> pystr -> list pystr -> option A) (v : A) :
  l <> [] -> forallb p l = true -> stops p rest ->
  k l rest g = Some v ->
  mt (Plus p) (l ++ rest) g k = Some v.
Proof.
  destruct l as [|c l]; [congruence|]. intros _ H Hs Hk.
  simpl in *. apply andb_true_iff in H as [Hc Hl].
  rewrite Hc. now apply rep_greedy.
Qed.

Lemma mt_Seq (r1 r2 : regex) (s : pystr) (g : list pystr)
  (k : pystr -> pystr -> list pystr -> option A) :
  mt (Seq r1 r2) s g k
  = mt r1 s g (fun w1 s1 g1 =>
    mt r2 s1 g1 (fun w2 s2 g2 => k (w1 ++ w2) s2 g2)).
Proof. reflexivity. Qed.

Lemma mt_Grp (r : regex) (s : pystr) (g : list pystr)
  (k : pystr -> pystr -> list pystr -> option A) :
  mt (Grp r) s g k = mt r s g (fun w s' g' => k w s' (g' ++ [w])).
Proof. reflexivity. Qed.

Lemma mt_Str_app (l s : pystr) (g : list pystr)
  (k : pystr -> pystr -> list pystr -> option A) :
  mt (Str l) (l ++ s) g k = k l s g.
Proof. simpl. now rewrite strip_prefix_app. Qed.

Lemma mt_Cls (p : codepoint -> bool) (c : codepoint) (s : pystr)
  (g : list pystr) (k : pystr -> pystr -> list pystr -> option A) :
  p c = true -> mt (Cls p) (c :: s) g k = k [c] s g.
Proof. simpl. now intros ->. Qed.

End MatcherFacts.

Lemma re_match_sound (r : regex) (s : pystr) (m : match_obj) :
  re_match r s = Some m ->
  exists rest, s = group0 m ++ rest /\ matches r (group0 m) [] (captures m).
Proof.
  unfold re_match. intros H.
  apply mt_sound in H as (w & s' & g' & -> & M & [= <-]).
  exists s'; auto.
Qed.

Lemma one_of_LR (c : codepoint) : one_of "LR" c = true -> c = 76 \/ c = 82.
Proof.
  unfold one_of; simpl.
  destruct (N.eqb_spec c 76); [auto|].
  destruct (N.eqb_spec c 82); [auto|discriminate].
Qed.

(** *** The patterns [prefix(class+)] of [MO], [DF], [ANY] and [LSFT] *)

Lemma wrap_re_inv (pre : pystr) (p : codepoint -> bool) (s : pystr)
  (m : match_obj) :
  re_match (wrap_re pre p) s = Some m ->
  exists l rest,
    s = pre ++ l ++ ")" ++ rest /\ l <> [] /\ forallb p l = true
    /\ m = MatchObj (pre ++ l ++ ")") [l].
Proof.
  intros H. apply re_match_sound in H as (rest & Hs & M).
  destruct m as [w g]; simpl in *. break; subst.
  match goal with |- context [?a ++ ?l ++ [41]] =>
    exists l, rest end.
  rewrite <- !app_assoc. auto.
Qed.

Lemma wrap_re_match (pre : pystr) (p : codepoint -> bool) (l rest : pystr) :
  l <> [] -> forallb p l = true -> p 41 = false ->
  re_match (wrap_re pre p) (pre ++ l ++ ")" ++ rest)
  = Some (MatchObj (pre ++ l ++ ")") [l]).
Proof.
  intros Hl Hp H41. unfold re_match, wrap_re.
  rewrite mt_Seq, mt_Str_app, mt_Seq, mt_Grp.
  apply mt_Plus_greedy; auto.
Qed.

(** ** The combinator rules: when they fire and what they return *)

Lemma cls_upper_upper (c : codepoint) : cls_upper c = true -> upper [c] = [c].
Proof.
  unfold cls_upper, in_range, upper, upper_char; simpl.
  rewrite andb_true_iff, !N.leb_le. intros [_ H].
  destruct (N.leb_spec 97 c); [lia|reflexivity].
Qed.

Lemma mod_combo_rule_fires (h : hand) (m : modifier) (c : codepoint)
  (rest : pystr) :
  cls_upper_digit c = true ->
  mod_combo_rule (modifier_code h m ++ "(KC_" ++ [c] ++ ")" ++ rest)
  = Some (ret (symbol m ++ [c], name m ++ "+" ++ [c])).
Proof.
  intros Hc. unfold mod_combo_rule, re_match, mod_combo_re.
  destruct h, m; cbn; rewrite Hc; reflexivity.
Qed.

Lemma mod_combo_rule_inv (s : pystr) (r : res (pystr * pystr)) :
  mod_combo_rule s = Some r ->
  exists h m c rest,
    s = modifier_code h m ++ "(KC_" ++ [c] ++ ")" ++ rest
    /\ cls_upper_digit c = true
    /\ r = ret (symbol m ++ [c], name m ++ "+" ++ [c]).
Proof.
  unfold mod_combo_rule.
  destruct (re_match mod_combo_re s) as [[w g]|] eqn:E; [|discriminate].
  intros [= <-].
  apply re_match_sound in E as (rest & -> & M).
  unfold mod_combo_re in M; cbn [matches group0 captures] in *.
  break; subst.
  all: match goal with H : one_of _ _ = true |- _ =>
         apply one_of_LR in H as [->| ->] end.
  all: match goal with H : cls_upper_digit ?c = true |- _ =>
         pick_modifier c rest end.
Qed.

Lemma shift_rule_fires (pre : pystr) (c : codepoint) (rest : pystr) :
  In pre shift_prefixes -> cls_upper_digit c = true ->
  shift_rule (pre ++ "(KC_" ++ [c] ++ ")" ++ rest)
  = Some (ret ("⇧" ++ [c], "Shift+" ++ [c])).
Proof.
  intros Hp Hc. unfold shift_rule, re_match, shift_re.
  simpl in Hp. destruct Hp as [<-|[<-|[<-|[]]]]; cbn; rewrite Hc; reflexivity.
Qed.

Lemma shift_rule_inv (s : pystr) (r : res (pystr * pystr)) :
  shift_rule s = Some r ->
  exists pre c rest,
    s = pre ++ "(KC_" ++ [c] ++ ")" ++ rest
    /\ In pre shift_prefixes /\ cls_upper_digit c = true
    /\ r = ret ("⇧" ++ [c], "Shift+" ++ [c]).
Proof.
  unfold shift_rule.
  destruct (re_match shift_re s) as [[w g]|] eqn:E; [|discriminate].
  intros [= <-].
  apply re_match_sound in E as (rest & -> & M).
  unfold shift_re in M; cbn [matches group0 captures] in *.
  break; subst.
  all: match goal with H : cls_upper_digit ?c = true |- _ =>
         let fin := split; [reflexivity | split; [simpl; tauto | split;
                      [assumption | reflexivity]]] in
         first [ exists "LSFT", c, rest; fin | exists "SFT", c, rest; fin
               | exists "S", c, rest; fin ]
       end.
Qed.

Lemma lt_re_match (n : pystr) (c : codepoint) (rest : pystr) :
  n <> [] -> forallb cls_digit n = true -> cls_upper c = true ->
  re_match lt_re ("LT(" ++ n ++ ",KC_" ++ [c] ++ ")" ++ rest)
  = Some (MatchObj ("LT(" ++ n ++ ",KC_" ++ [c] ++ ")") [n; [c]]).
Proof.
  intros Hn Hd Hc. unfold re_match, lt_re.
  rewrite mt_Seq, mt_Str_app, mt_Seq, mt_Grp.
  apply mt_Plus_greedy; auto; [reflexivity|].
  rewrite mt_Seq, mt_Str_app, mt_Seq, mt_Grp.
  change ([c] ++ ")" ++ rest) with (c :: ")" ++ rest).
  rewrite mt_Cls by assumption.
  rewrite mt_Str_app. reflexivity.
Qed.

Lemma lt_rule_fires (n : pystr) (c : codepoint) (rest : pystr) :
  n <> [] -> forallb cls_digit n = true -> cls_upper c = true ->
  lt_rule ("LT(" ++ n ++ ",KC_" ++ [c] ++ ")" ++ rest)
  = Some (ret ([c], "L" ++ n ++ "/Tap")).
Proof.
  intros Hn Hd Hc. unfold lt_rule. rewrite lt_re_match by assumption.
  cbn [groups captures unpack2 bind ret]. now rewrite cls_upper_upper.
Qed.

Lemma lt_rule_inv (s : pystr) (r : res (pystr * pystr)) :
  lt_rule s = Some r ->
  exists n c rest,
    s = "LT(" ++ n ++ ",KC_" ++ [c] ++ ")" ++ rest
    /\ n <> [] /\ forallb cls_digit n = true /\ cls_upper c = true
    /\ r = ret ([c], "L" ++ n ++ "/Tap").
Proof.
  unfold lt_rule.
  destruct (re_match lt_re s) as [[w g]|] eqn:E; [|discriminate].
  intros [= <-].
  apply re_match_sound in E as (rest & -> & M).
  unfold lt_re in M; cbn [matches group0 captures] in *.
  break; subst.
  match goal with
    Hn : forallb cls_digit ?n = true, Hc : cls_upper ?c = true |- _ =>
      exists n, c, rest; repeat split; auto
  end.
  - now rewrite <- !app_assoc.
  - cbn [groups captures app unpack2 bind ret].
    now rewrite cls_upper_upper by assumption.
Qed.

Lemma mod_tap_rule_fires (h : hand) (m : modifier) (c : codepoint)
  (rest : pystr) :
  cls_upper c = true ->
  mod_tap_rule (modifier_code h m ++ "_T(KC_" ++ [c] ++ ")" ++ rest)
  = Some (ret ([c], name m ++ "/Tap")).
Proof.
  intros Hc. unfold mod_tap_rule, re_match, mod_tap_re.
  destruct h, m; cbn; rewrite Hc;
    cbn [groups captures unpack2 bind ret];
    now rewrite cls_upper_upper by assumption.
Qed.

Lemma mod_tap_rule_inv (s : pystr) (r : res (pystr * pystr)) :
  mod_tap_rule s = Some r ->
  exists h m c rest,
    s = modifier_code h m ++ "_T(KC_" ++ [c] ++ ")" ++ rest
    /\ cls_upper c = true
    /\ r = ret ([c], name m ++ "/Tap").
Proof.
  unfold mod_tap_rule.
  destruct (re_match mod_tap_re s) as [[w g]|] eqn:E; [|discriminate].
  intros [= <-].
  apply re_match_sound in E as (rest & -> & M).
  unfold mod_tap_re in M; cbn [matches group0 captures] in *.
  break; subst.
  all: match goal with H : one_of _ _ = true |- _ =>
         apply one_of_LR in H as [->| ->] end.
  all: cbn [groups captures app unpack2 bind ret].
  all: match goal with H : cls_upper ?c = true |- _ =>
         rewrite cls_upper_upper by assumption; pick_modifier c rest end.
Qed.

Lemma cls_digit_rparen : cls_digit 41 = false.
Proof. reflexivity. Qed.

Lemma cls_not_rparen_rparen : cls_not_rparen 41 = false.
Proof. reflexivity. Qed.

Lemma mo_rule_fires (n rest : pystr) :
  n <> [] -> forallb cls_digit n = true ->
  mo_rule ("MO(" ++ n ++ ")" ++ rest)
  = Some (ret ("MO" ++ n, "Momentary L" ++ n)).
Proof.
  intros Hn Hd. unfold mo_rule.
  change mo_re with (wrap_re "MO(" cls_digit).
  now rewrite wrap_re_match by auto using cls_digit_rparen.
Qed.

Lemma mo_rule_inv (s : pystr) (r : res (pystr * pystr)) :
  mo_rule s = Some r ->
  exists n rest,
    s = "MO(" ++ n ++ ")" ++ rest /\ n <> [] /\ forallb cls_digit n = true
    /\ r = ret ("MO" ++ n, "Momentary L" ++ n).
Proof.
  unfold mo_rule. change mo_re with (wrap_re "MO(" cls_digit).
  destruct (re_match _ s) as [m|] eqn:E; [|discriminate].
  apply wrap_re_inv in E as (n & rest & -> & Hn & Hd & ->).
  intros [= <-]. exists n, rest; auto.
Qed.

Lemma df_rule_fires (n rest : pystr) :
  n <> [] -> forallb cls_digit n = true ->
  df_rule ("DF(" ++ n ++ ")" ++ rest)
  = Some (ret ("L" ++ n, "Default L" ++ n)).
Proof.
  intros Hn Hd. unfold df_rule.
  change df_re with (wrap_re "DF(" cls_digit).
  now rewrite wrap_re_match by auto using cls_digit_rparen.
Qed.

Lemma df_rule_inv (s : pystr) (r : res (pystr * pystr)) :
  df_rule s = Some r ->
  exists n rest,
    s = "DF(" ++ n ++ ")" ++ rest /\ n <> [] /\ forallb cls_digit n = true
    /\ r = ret ("L" ++ n, "Default L" ++ n).
Proof.
  unfold df_rule. change df_re with (wrap_re "DF(" cls_digit).
  destruct (re_match _ s) as [m|] eqn:E; [|discriminate].
  apply wrap_re_inv in E as (n & rest & -> & Hn & Hd & ->).
  intros [= <-]. exists n, rest; auto.
Qed.

Lemma any_rule_fires (inner rest : pystr) :
  inner <> [] -> forallb cls_not_rparen inner = true ->
  any_rule ("ANY(" ++ inner ++ ")" ++ rest)
  = Some (ret (slice_to 6 inner, "Any: " ++ inner)).
Proof.
  intros Hn Hd. unfold any_rule.
  change any_re with (wrap_re "ANY(" cls_not_rparen).
  now rewrite wrap_re_match by auto using cls_not_rparen_rparen.
Qed.

Lemma any_rule_inv (s : pystr) (r : res (pystr * pystr)) :
  any_rule s = Some r ->
  exists inner rest,
    s = "ANY(" ++ inner ++ ")" ++ rest /\ inner <> []
    /\ forallb cls_not_rparen inner = true
    /\ r = ret (slice_to 6 inner, "Any: " ++ inner).
Proof.
  unfold any_rule. change any_re with (wrap_re "ANY(" cls_not_rparen).
  destruct (re_match _ s) as [m|] eqn:E; [|discriminate].
  apply wrap_re_inv in E as (n & rest & -> & Hn & Hd & ->).
  intros [= <-]. exists n, rest; auto.
Qed.

Lemma lsft_rule_fires (inner rest : pystr) :
  inner <> [] -> forallb cls_not_rparen inner = true ->
  lsft_rule ("LSFT(" ++ inner ++ ")" ++ rest) = Some (ret (lsft_labels inner)).
Proof.
  intros Hn Hd. unfold lsft_rule.
  change lsft_re with (wrap_re "LSFT(" cls_not_rparen).
  rewrite wrap_re_match by auto using cls_not_rparen_rparen.
  cbn [group captures nth_error bind ret]. unfold lsft_labels.
  destruct (startswith inner "KC_"); [|reflexivity].
  now destruct (str_eqb _ _).
Qed.

Lemma lsft_rule_inv (s : pystr) (r : res (pystr * pystr)) :
  lsft_rule s = Some r ->
  exists inner rest,
    s = "LSFT(" ++ inner ++ ")" ++ rest /\ inner <> []
    /\ forallb cls_not_rparen inner = true
    /\ r = ret (lsft_labels inner).
Proof.
  intros H.
  assert (E : exists m, re_match lsft_re s = Some m).
  { unfold lsft_rule in H. destruct (re_match lsft_re s); [eauto|discriminate]. }
  destruct E as [m E]. change lsft_re with (wrap_re "LSFT(" cls_not_rparen) in E.
  apply wrap_re_inv in E as (n & rest & -> & Hn & Hd & _).
  rewrite lsft_rule_fires in H by assumption.
  injection H as <-. exists n, rest; auto.
Qed.

(** ** The other rules *)

Lemma equals_rule_inv (code short long s : pystr) (r : res (pystr * pystr)) :
  equals_rule code short long s = Some r -> s = code /\ r = ret (short, long).
Proof.
  unfold equals_rule. destruct (str_eqb s code) eqn:E; [|discriminate].
  apply str_eqb_eq in E. now intros [= <-].
Qed.

Lemma dict_mem_inv (d : dict) (k : pystr) :
  dict_mem k d = true ->
  exists v, In (k, v) d /\ dict_index d k = ret v.
Proof.
  unfold dict_mem, dict_index.
  destruct (dict_find d k) as [v|] eqn:E; [|discriminate].
  intros _. exists v; split; [now apply dict_find_In | reflexivity].
Qed.

Lemma label_ok_In (d : dict) (k v : pystr) :
  forallb label_ok d = true -> In (k, v) d ->
  v <> [] /\ (length v <= 8)%nat.
Proof.
  intros H Hin. rewrite forallb_forall in H. apply H in Hin.
  unfold label_ok in Hin; cbn [snd] in Hin.
  apply andb_true_iff in Hin as [H1 H2].
  apply Nat.leb_le in H1, H2. split; [|lia].
  intros ->; simpl in H1; lia.
Qed.

(** ** Every block returns a label *)

Lemma first_match_ok (P : res (pystr * pystr) -> Prop) (rules : list rule)
  (fallback : pystr -> res (pystr * pystr)) (s : pystr) :
  (forall rl r, In rl rules -> rl s = Some r -> P r) ->
  P (fallback s) ->
  P (first_match rules fallback s).
Proof.
  intros Hr Hf. induction rules as [|rl rules IH]; simpl; [exact Hf|].
  destruct (rl s) as [r|] eqn:E.
  - apply (Hr rl); simpl; auto.
  - apply IH. intros rl' r Hin. apply Hr; simpl; auto.
Qed.

Lemma first_match_skip (rl : rule) (rules : list rule)
  (fallback : pystr -> res (pystr * pystr)) (s : pystr) :
  rl s = None ->
  first_match (rl :: rules) fallback s = first_match rules fallback s.
Proof. simpl. now intros ->. Qed.

Lemma first_match_hit (rl : rule) (rules : list rule)
  (fallback : pystr -> res (pystr * pystr)) (s : pystr)
  (r : res (pystr * pystr)) :
  rl s = Some r -> first_match (rl :: rules) fallback s = r.
Proof. simpl. now intros ->. Qed.

Lemma firstn_nil_inv (A : Type) (n : nat) (l : list A) :
  firstn (S n) l = [] -> l = [].
Proof. destruct l; [reflexivity|discriminate]. Qed.

Lemma no_key_rule_label (s : pystr) (r : res (pystr * pystr)) :
  no_key_rule s = Some r -> returns_label s r.
Proof.
  unfold no_key_rule. destruct s as [|c s]; cbn [truthy negb orb].
  - intros [= <-]. exists [], []; split; [reflexivity|].
    split; [auto | left; simpl; lia].
  - destruct (str_eqb (c :: s) "KC_NO") eqn:E; [|discriminate].
    apply str_eqb_eq in E. intros [= <-].
    exists [], []; split; [reflexivity|].
    split; [auto | left; simpl; lia].
Qed.

Lemma equals_rule_label (code short long s : pystr)
  (r : res (pystr * pystr)) :
  short <> [] -> (length short <= 8)%nat ->
  equals_rule code short long s = Some r -> returns_label s r.
Proof.
  intros Hs Hl H. apply equals_rule_inv in H as [_ ->].
  exists short, long; split; [reflexivity|].
  split; [intros; contradiction | left; assumption].
Qed.

Lemma mod_combo_rule_label (s : pystr) (r : res (pystr * pystr)) :
  mod_combo_rule s = Some r -> returns_label s r.
Proof.
  intros H. apply mod_combo_rule_inv in H as (h & m & c & rest & _ & _ & ->).
  destruct m; fixed_label.
Qed.

Lemma shift_rule_label (s : pystr) (r : res (pystr * pystr)) :
  shift_rule s = Some r -> returns_label s r.
Proof.
  intros H. apply shift_rule_inv in H as (pre & c & rest & _ & _ & _ & ->).
  fixed_label.
Qed.

Lemma lt_rule_label (s : pystr) (r : res (pystr * pystr)) :
  lt_rule s = Some r -> returns_label s r.
Proof.
  intros H. apply lt_rule_inv in H as (n & c & rest & _ & _ & _ & _ & ->).
  fixed_label.
Qed.

Lemma mod_tap_rule_label (s : pystr) (r : res (pystr * pystr)) :
  mod_tap_rule s = Some r -> returns_label s r.
Proof.
  intros H. apply mod_tap_rule_inv in H as (h & m & c & rest & _ & _ & ->).
  fixed_label.
Qed.

Lemma mo_rule_label (s : pystr) (r : res (pystr * pystr)) :
  mo_rule s = Some r -> returns_label s r.
Proof.
  intros H. apply mo_rule_inv in H as (n & rest & -> & Hn & Hd & ->).
  eexists; eexists; split; [reflexivity|]. split; [discriminate|].
  right. exists n, rest; auto.
Qed.

Lemma df_rule_label (s : pystr) (r : res (pystr * pystr)) :
  df_rule s = Some r -> returns_label s r.
Proof.
  intros H. apply df_rule_inv in H as (n & rest & -> & Hn & Hd & ->).
  eexists; eexists; split; [reflexivity|]. split; [discriminate|].
  right. exists n, rest; auto.
Qed.

Lemma numpad_rule_label (s : pystr) (r : res (pystr * pystr)) :
  numpad_rule s = Some r -> returns_label s r.
Proof.
  unfold numpad_rule. destruct (dict_mem s numpad_keys) eqn:E; [|discriminate].
  apply dict_mem_inv in E as (v & Hin & ->). intros [= <-].
  apply label_ok_In in Hin as [Hv Hl]; [|reflexivity].
  eexists; eexists; split; [reflexivity|]. split; [congruence | auto].
Qed.

Lemma any_rule_label (s : pystr) (r : res (pystr * pystr)) :
  any_rule s = Some r -> returns_label s r.
Proof.
  intros H. apply any_rule_inv in H as (inner & rest & _ & Hn & _ & ->).
  eexists; eexists; split; [reflexivity|]. split.
  - intros E. apply firstn_nil_inv in E. contradiction.
  - left. unfold slice_to. pose proof (firstn_le_length 6 inner). 
    rewrite length_firstn. lia.
Qed.

Lemma lsft_rule_label (s : pystr) (r : res (pystr * pystr)) :
  lsft_rule s = Some r -> returns_label s r.
Proof.
  intros H. apply lsft_rule_inv in H as (inner & rest & _ & _ & _ & ->).
  unfold lsft_labels.
  destruct (startswith inner "KC_"); [destruct (str_eqb _ _)|].
  - fixed_label.
  - eexists; eexists; split; [reflexivity|]. split; [discriminate|].
    left. unfold slice_to; cbn [app length]. rewrite length_firstn. lia.
  - eexists; eexists; split; [reflexivity|]. split; [discriminate|].
    left. unfold slice_to; cbn [app length]. rewrite length_firstn. lia.
Qed.

Lemma table_rule_label (s : pystr) (r : res (pystr * pystr)) :
  table_rule s = Some r -> returns_label s r.
Proof.
  unfold table_rule.
  destruct (dict_mem s QMK_KEYCODE_MAP) eqn:E; [|discriminate].
  apply dict_mem_inv in E as (v & Hin & ->). intros [= <-].
  apply label_ok_In in Hin as [Hv Hl]; [|reflexivity].
  eexists; eexists; split; [reflexivity|]. split; [congruence | auto].
Qed.

Lemma kc_prefix_rule_label (s : pystr) (r : res (pystr * pystr)) :
  kc_prefix_rule s = Some r -> returns_label s r.
Proof.
  unfold kc_prefix_rule.
  destruct (startswith s "KC_") eqn:E; [|discriminate].
  apply startswith_inv in E. intros H.
  assert (Hr : r = if dict_mem (slice_from 3 s) special_mappings
                   then label <- dict_index special_mappings (slice_from 3 s) ;;
                        ret (label, s)
                   else ret (slice_to 6 (slice_from 3 s), s))
    by (injection H as <-; reflexivity).
  subst r; clear H.
  destruct (dict_mem (slice_from 3 s) special_mappings) eqn:Em.
  - apply dict_mem_inv in Em as (v & Hin & ->).
    apply label_ok_In in Hin as [Hv Hl]; [|reflexivity].
    eexists; eexists; split; [reflexivity|]. split; [congruence | auto].
  - eexists; eexists; split; [reflexivity|]. split.
    + intros E0. apply firstn_nil_inv in E0.
      right; right. rewrite E. simpl length. now rewrite E0.
    + left. unfold slice_to. rewrite length_firstn. lia.
Qed.

Lemma final_fallback_label (s : pystr) : returns_label s (final_fallback s).
Proof.
  eexists; eexists; split; [reflexivity|]. split.
  - intros E. apply firstn_nil_inv in E. auto.
  - left. unfold slice_to. rewrite length_firstn. lia.
Qed.

Lemma decoder_chain_label (rl : rule) (s : pystr) (r : res (pystr * pystr)) :
  In rl decoder_chain -> rl s = Some r -> returns_label s r.
Proof.
  unfold decoder_chain. simpl.
  intros H; repeat destruct H as [<-|H]; try contradiction.
  - apply no_key_rule_label.
  - apply equals_rule_label; [discriminate | simpl; lia].
  - apply mod_combo_rule_label.
  - apply shift_rule_label.
  - apply lt_rule_label.
  - apply mod_tap_rule_label.
  - apply mo_rule_label.
  - apply df_rule_label.
  - apply equals_rule_label; [discriminate | simpl; lia].
  - apply equals_rule_label; [discriminate | simpl; lia].
  - apply equals_rule_label; [discriminate | simpl; lia].
  - apply equals_rule_label; [discriminate | simpl; lia].
  - apply equals_rule_label; [discriminate | simpl; lia].
  - apply equals_rule_label; [discriminate | simpl; lia].
  - apply equals_rule_label; [discriminate | simpl; lia].
  - apply numpad_rule_label.
  - apply any_rule_label.
  - apply lsft_rule_label.
  - apply table_rule_label.
  - apply kc_prefix_rule_label.
Qed.

Lemma parse_keycode_label (s : pystr) : returns_label s (parse_keycode s).
Proof.
  unfold parse_keycode. apply first_match_ok.
  - intros rl r. apply decoder_chain_label.
  - apply final_fallback_label.
Qed.

(** ** The decoder *)

Lemma first_match_none (rules : list rule)
  (fallback : pystr -> res (pystr * pystr)) (s : pystr) :
  Forall (fun rl : rule => rl s = None) rules ->
  first_match rules fallback s = fallback s.
Proof.
  induction 1 as [|rl rules H _ IH]; simpl; [reflexivity|].
  now rewrite H.
Qed.

(** C1: on every input string, the empty string and unrecognised text
    included, [parse_keycode] returns a pair of strings and raises
    nothing: a block of the chain that returns, returns a pair, and the
    final fallback answers for every string that no block matched. *)
Theorem parse_keycode_total : forall s : pystr,
  (exists short long : pystr, parse_keycode s = ret (short, long))
  /\ (forall (rl : rule) (r : res (pystr * pystr)),
        In rl decoder_chain -> rl s = Some r ->
        exists short long : pystr, r = ret (short, long))
  /\ (Forall (fun rl : rule => rl s = None) decoder_chain ->
      parse_keycode s = ret (slice_to 8 s, s)).
Proof.
  intros s. split; [|split].
  - destruct (parse_keycode_label s) as (short & long & H & _).
    exists short, long; exact H.
  - intros rl r Hin E.
    destruct (decoder_chain_label rl s r Hin E) as (short & long & H & _).
    exists short, long; exact H.
  - intros H. unfold parse_keycode. now rewrite first_match_none.
Qed.

Lemma parse_keycode_total_witness :
  parse_keycode "HYPR(KC_NO)" = ret ("HYPR(KC_", "HYPR(KC_NO)").
Proof.
  apply (proj2 (proj2 (parse_keycode_total "HYPR(KC_NO)"))).
  repeat constructor.
Defined.

Lemma upper_alnum_cls (c : codepoint) :
  upper_alnum c -> cls_upper_digit c = true.
Proof.
  unfold upper_alnum, cls_upper_digit, in_range.
  rewrite orb_true_iff, !andb_true_iff, !N.leb_le. tauto.
Qed.

Lemma parse_keycode_mod_combo (h : hand) (m : modifier) (c : codepoint)
  (rest : pystr) :
  cls_upper_digit c = true ->
  parse_keycode (modifier_code h m ++ "(KC_" ++ [c] ++ ")" ++ rest)
  = ret (symbol m ++ [c], name m ++ "+" ++ [c]).
Proof.
  intros Hc. unfold parse_keycode, decoder_chain.
  rewrite first_match_skip by (destruct h, m; reflexivity).
  rewrite first_match_skip by (destruct h, m; reflexivity).
  apply first_match_hit. now apply mod_combo_rule_fires.
Qed.

(** C3: a modifier applied to one uppercase letter or digit decodes to
    the modifier's symbol followed by the key, and to the modifier's
    name, a plus sign and the key; the left and right modifiers share
    symbol and name. *)
Theorem parse_keycode_modifier_key :
  (forall (h : hand) (m : modifier) (c : codepoint),
      upper_alnum c ->
      parse_keycode (modifier_code h m ++ "(KC_" ++ [c] ++ ")")
      = ret (symbol m ++ [c], name m ++ "+" ++ [c]))
  /\ parse_keycode "LGUI(KC_S)" = ret ("⌘S", "Win+S")
  /\ parse_keycode "LCTL(KC_F)" = ret ("⌃F", "Ctrl+F")
  /\ parse_keycode "RALT(KC_K)" = ret ("⌥K", "Alt+K").
Proof.
  split; [|repeat split].
  intros h m c Hc. apply upper_alnum_cls in Hc.
  exact (parse_keycode_mod_combo h m c [] Hc).
Qed.

Lemma parse_keycode_modifier_key_witness :
  upper_alnum 83
  /\ parse_keycode (modifier_code RightHand GUI ++ "(KC_" ++ [83] ++ ")")
     = ret (symbol GUI ++ [83], name GUI ++ "+" ++ [83]).
Proof.
  assert (H : upper_alnum 83) by (unfold upper_alnum; lia).
  split; [exact H|].
  exact (proj1 parse_keycode_modifier_key RightHand GUI 83 H).
Defined.

(** C8: for one uppercase letter or digit, the bare alias [S(KC_X)] and
    the wrapper [LSFT(KC_X)] decode to the same pair, the shift symbol
    followed by the key and [Shift+] followed by the key. *)
Theorem parse_keycode_shift_alias :
  (forall c : codepoint,
      upper_alnum c ->
      parse_keycode ("S(KC_" ++ [c] ++ ")") = ret ("⇧" ++ [c], "Shift+" ++ [c])
      /\ parse_keycode ("LSFT(KC_" ++ [c] ++ ")")
         = parse_keycode ("S(KC_" ++ [c] ++ ")"))
  /\ parse_keycode "LSFT(KC_Q)" = ret ("⇧Q", "Shift+Q")
  /\ parse_keycode "S(KC_Q)" = ret ("⇧Q", "Shift+Q").
Proof.
  split; [|repeat split].
  intros c Hc. apply upper_alnum_cls in Hc.
  assert (E : parse_keycode ("S(KC_" ++ [c] ++ ")")
              = ret ("⇧" ++ [c], "Shift+" ++ [c])).
  { unfold parse_keycode, decoder_chain.
    do 3 (rewrite first_match_skip by reflexivity).
    apply first_match_hit.
    apply (shift_rule_fires "S" c []); [simpl; auto | exact Hc]. }
  split; [exact E|]. rewrite E.
  exact (parse_keycode_mod_combo LeftHand SFT c [] Hc).
Qed.

Lemma parse_keycode_shift_alias_witness :
  upper_alnum 55
  /\ parse_keycode "S(KC_7)" = ret ("⇧7", "Shift+7")
  /\ parse_keycode "LSFT(KC_7)" = parse_keycode "S(KC_7)".
Proof.
  assert (H : upper_alnum 55) by (unfold upper_alnum; lia).
  split; [exact H|].
  exact (proj1 parse_keycode_shift_alias 55 H).
Defined.

(** C7: the fixed literals are tried before the table, so [QK_BOOT]
    decodes to [BOOT] although the table maps it to [Boot], which is
    what the table block returns and what the decoder would return with
    the table block first. *)
Theorem fixed_literals_before_table :
  parse_keycode "QK_BOOT" = ret ("BOOT", "Bootloader")
  /\ parse_keycode "SC_LSPO" = ret ("L(", "Space Cadet Left")
  /\ dict_find QMK_KEYCODE_MAP "QK_BOOT" = Some "Boot"
  /\ table_rule "QK_BOOT" = Some (ret ("Boot", "QK_BOOT"))
  /\ first_match (table_rule :: decoder_chain) final_fallback "QK_BOOT"
     = ret ("Boot", "QK_BOOT")
  /\ exists before between after : list rule,
       decoder_chain
       = before ++ qk_boot_rule :: between ++ table_rule :: after
       /\ In sc_lspo_rule between.
Proof.
  repeat split.
  exists (firstn 9 decoder_chain),
    [qk_rbt_rule; ee_clr_rule; db_togg_rule; sc_lspo_rule; sc_rspc_rule;
     numpad_rule; any_rule; lsft_rule],
    [kc_prefix_rule].
  split; [reflexivity | simpl; auto 10].
Qed.

(** ** Anchoring of the combinator rules *)

Lemma combinator_rule_prefix (k : combinator_kind) (s : pystr)
  (r : res (pystr * pystr)) :
  rule_of k s = Some r ->
  exists c rest,
    combinator k c /\ s = c ++ rest
    /\ forall t, rule_of k (c ++ t) = Some r.
Proof.
  destruct k; cbn [rule_of]; intros E.
  - apply mod_combo_rule_inv in E as (h & m & c & rest & -> & Hc & ->).
    exists (modifier_code h m ++ "(KC_" ++ [c] ++ ")"), rest.
    split; [now constructor|]. split; [now reassoc|].
    intros t. reassoc. now apply mod_combo_rule_fires.
  - apply shift_rule_inv in E as (pre & c & rest & -> & Hp & Hc & ->).
    exists (pre ++ "(KC_" ++ [c] ++ ")"), rest.
    split; [now constructor|]. split; [now reassoc|].
    intros t. reassoc. now apply shift_rule_fires.
  - apply lt_rule_inv in E as (n & c & rest & -> & Hn & Hd & Hc & ->).
    exists ("LT(" ++ n ++ ",KC_" ++ [c] ++ ")"), rest.
    split; [now constructor|]. split; [now reassoc|].
    intros t. reassoc. now apply lt_rule_fires.
  - apply mod_tap_rule_inv in E as (h & m & c & rest & -> & Hc & ->).
    exists (modifier_code h m ++ "_T(KC_" ++ [c] ++ ")"), rest.
    split; [now constructor|]. split; [now reassoc|].
    intros t. reassoc. now apply mod_tap_rule_fires.
  - apply mo_rule_inv in E as (n & rest & -> & Hn & Hd & ->).
    exists ("MO(" ++ n ++ ")"), rest.
    split; [now constructor|]. split; [now reassoc|].
    intros t. reassoc. now apply mo_rule_fires.
  - apply df_rule_inv in E as (n & rest & -> & Hn & Hd & ->).
    exists ("DF(" ++ n ++ ")"), rest.
    split; [now constructor|]. split; [now reassoc|].
    intros t. reassoc. now apply df_rule_fires.
  - apply any_rule_inv in E as (n & rest & -> & Hn & Hd & ->).
    exists ("ANY(" ++ n ++ ")"), rest.
    split; [now constructor|]. split; [now reassoc|].
    intros t. reassoc. now apply any_rule_fires.
  - apply lsft_rule_inv in E as (n & rest & -> & Hn & Hd & ->).
    exists ("LSFT(" ++ n ++ ")"), rest.
    split; [now constructor|]. split; [now reassoc|].
    intros t. reassoc. now apply lsft_rule_fires.
Qed.

Lemma combinator_fires (k : combinator_kind) (c : pystr) :
  combinator k c -> exists r, forall t, rule_of k (c ++ t) = Some r.
Proof.
  intros [h m x Hx | pre x Hp Hx | n x Hn Hd Hx | h m x Hx
         | n Hn Hd | n Hn Hd | n Hn Hd | n Hn Hd];
    cbn [rule_of]; eexists; intros t; reassoc.
  - now apply mod_combo_rule_fires.
  - now apply shift_rule_fires.
  - now apply lt_rule_fires.
  - now apply mod_tap_rule_fires.
  - now apply mo_rule_fires.
  - now apply df_rule_fires.
  - now apply any_rule_fires.
  - now apply lsft_rule_fires.
Qed.

(** C4, as the code has it: the combinator rules are anchored at the
    start of the string only.  The rule of a kind fires on a string
    exactly when the string begins with a well-formed combinator of
    that kind, and whatever follows the closing parenthesis is ignored:
    a rule that fires returns the same with any text appended. *)
Theorem combinator_rules_anchored_at_start :
  forall (k : combinator_kind) (s : pystr),
    (rule_of k s <> None
     <-> exists c rest, combinator k c /\ s = c ++ rest)
    /\ (forall (r : res (pystr * pystr)) (t : pystr),
          rule_of k s = Some r -> rule_of k (s ++ t) = Some r).
Proof.
  intros k s. split; [split|].
  - destruct (rule_of k s) as [r|] eqn:E; [|congruence]. intros _.
    destruct (combinator_rule_prefix k s r E) as (c & rest & Hc & Hs & _).
    now exists c, rest.
  - intros (c & rest & Hc & ->).
    destruct (combinator_fires k c Hc) as [r Hr]. rewrite Hr. discriminate.
  - intros r t E.
    destruct (combinator_rule_prefix k s r E) as (c & rest & _ & -> & Ht).
    rewrite <- app_assoc. apply Ht.
Qed.

Lemma combinator_rules_anchored_at_start_witness :
  rule_of Momentary "MO(3)" = Some (ret ("MO3", "Momentary L3"))
  /\ rule_of Momentary ("MO(3)" ++ "xyz")
     = Some (ret ("MO3", "Momentary L3")).
Proof.
  assert (E : rule_of Momentary "MO(3)"
              = Some (ret ("MO3", "Momentary L3"))) by reflexivity.
  split; [exact E|].
  exact (proj2 (combinator_rules_anchored_at_start Momentary "MO(3)")
           _ "xyz" E).
Defined.

(** C4, as the claim has it, fails: [MO(3)] is a well-formed combinator,
    and on [MO(3)xyz] the momentary-layer rule fires all the same and
    decides what the decoder returns. *)
Lemma mo_rule_fires_with_trailing_text :
  combinator Momentary "MO(3)"
  /\ mo_rule "MO(3)xyz" = Some (ret ("MO3", "Momentary L3"))
  /\ parse_keycode "MO(3)xyz" = ret ("MO3", "Momentary L3")
  /\ ~ (forall (k : combinator_kind) (c t : pystr),
          combinator k c -> t <> [] -> rule_of k (c ++ t) = None).
Proof.
  assert (Hc : combinator Momentary "MO(3)").
  { apply (comb_momentary "3"); [discriminate | reflexivity]. }
  repeat split; auto.
  intros H. specialize (H Momentary "MO(3)" "xyz" Hc).
  discriminate H. discriminate.
Qed.

(** ** Length of the short label *)

Lemma parse_keycode_momentary (n rest : pystr) :
  n <> [] -> forallb cls_digit n = true ->
  parse_keycode ("MO(" ++ n ++ ")" ++ rest)
  = ret ("MO" ++ n, "Momentary L" ++ n).
Proof.
  intros Hn Hd. unfold parse_keycode, decoder_chain.
  do 6 (rewrite first_match_skip by reflexivity).
  apply first_match_hit. now apply mo_rule_fires.
Qed.

Lemma parse_keycode_default_layer (n rest : pystr) :
  n <> [] -> forallb cls_digit n = true ->
  parse_keycode ("DF(" ++ n ++ ")" ++ rest)
  = ret ("L" ++ n, "Default L" ++ n).
Proof.
  intros Hn Hd. unfold parse_keycode, decoder_chain.
  do 7 (rewrite first_match_skip by reflexivity).
  apply first_match_hit. now apply df_rule_fires.
Qed.

(** C5, as the code has it.  When the input begins with [MO(n)], the
    short label is [MO] followed by all the digits of [n], and when it
    begins with [DF(n)], it is [L] followed by all the digits of [n]:
    nothing is cut, so the label has two, respectively one, characters
    more than [n] has digits.  For every other input the short label
    has at most eight characters. *)
Theorem parse_keycode_short_length : forall s : pystr,
  exists short long : pystr,
    parse_keycode s = ret (short, long)
    /\ ((length short <= 8)%nat \/ layer_label s short)
    /\ (forall n rest : pystr,
          n <> [] -> forallb cls_digit n = true ->
          s = "MO(" ++ n ++ ")" ++ rest ->
          short = "MO" ++ n /\ length short = (2 + length n)%nat)
    /\ (forall n rest : pystr,
          n <> [] -> forallb cls_digit n = true ->
          s = "DF(" ++ n ++ ")" ++ rest ->
          short = "L" ++ n /\ length short = (1 + length n)%nat)
    /\ ((forall n rest : pystr,
           n <> [] -> forallb cls_digit n = true ->
           s <> "MO(" ++ n ++ ")" ++ rest
           /\ s <> "DF(" ++ n ++ ")" ++ rest) ->
        (length short <= 8)%nat).
Proof.
  intros s.
  destruct (parse_keycode_label s) as (short & long & H & _ & Hl).
  exists short, long. split; [exact H|]. split; [exact Hl|].
  split; [|split].
  - intros n rest Hn Hd ->.
    rewrite (parse_keycode_momentary n rest Hn Hd) in H.
    injection H as <- _. split; reflexivity.
  - intros n rest Hn Hd ->.
    rewrite (parse_keycode_default_layer n rest Hn Hd) in H.
    injection H as <- _. split; reflexivity.
  - intros Hno. destruct Hl as [Hl|(n & rest & Hn & Hd & Hshape)];
      [exact Hl|].
    destruct (Hno n rest Hn Hd) as [Hmo Hdf].
    destruct Hshape as [[E _]|[E _]]; contradiction.
Qed.

Lemma parse_keycode_short_length_witness :
  exists short long : pystr,
    parse_keycode "MO(123456789)" = ret (short, long)
    /\ short = "MO" ++ "123456789"
    /\ length short = (2 + length "123456789")%nat.
Proof.
  destruct (parse_keycode_short_length "MO(123456789)")
    as (short & long & H & _ & Hmo & _).
  exists short, long. split; [exact H|].
  apply (Hmo "123456789" []); [discriminate | reflexivity | reflexivity].
Defined.

(** C5, as the claim has it, fails: a layer number of nine digits gives
    a short label of eleven characters. *)
Lemma mo_short_label_exceeds_8 :
  parse_keycode "MO(123456789)" = ret ("MO123456789", "Momentary L123456789")
  /\ (8 < length "MO123456789")%nat
  /\ parse_keycode "DF(123456789)" = ret ("L123456789", "Default L123456789")
  /\ (8 < length "L123456789")%nat.
Proof. repeat split; simpl; lia. Qed.

(** ** Empty short labels *)

(** C6, as the code has it: the short label is empty exactly for the
    empty string, [KC_NO] and the bare prefix [KC_]; both labels are
    empty exactly for the empty string and [KC_NO]. *)
Theorem parse_keycode_short_empty : forall s : pystr,
  exists short long : pystr,
    parse_keycode s = ret (short, long)
    /\ (short = [] <-> s = [] \/ s = "KC_NO" \/ s = "KC_")
    /\ (short = [] /\ long = [] <-> s = [] \/ s = "KC_NO").
Proof.
  intros s.
  destruct (parse_keycode_label s) as (short & long & H & He & _).
  exists short, long. split; [exact H|].
  assert (Hback : s = [] \/ s = "KC_NO" \/ s = "KC_" -> short = []).
  { intros [->|[->| ->]]; vm_compute in H; congruence. }
  split; [split; assumption|]. split.
  - intros [Hs Hl]. destruct (He Hs) as [->|[->| ->]]; auto.
    subst. vm_compute in H. discriminate.
  - intros [->| ->]; vm_compute in H; split; congruence.
Qed.

(** C6, as the claim has it, fails: [KC_] is neither the empty string
    nor [KC_NO], and its short label is empty. *)
Lemma kc_prefix_alone_short_empty :
  parse_keycode "KC_" = ret ([], "KC_")
  /\ "KC_" <> [] /\ "KC_" <> "KC_NO".
Proof. repeat split; discriminate. Qed.

(** * Further properties of the escaper *)

(** Escaping distributes over concatenation: a text can be escaped
    piece by piece. *)
Theorem escape_svg_text_app : forall a b : pystr,
  escape_svg_text (Some (a ++ b))
  = escape_svg_text (Some a) ++ escape_svg_text (Some b).
Proof.
  intros a b. rewrite !escape_svg_text_flat_map. apply flat_map_app.
Qed.

Lemma escape_char_length (c : codepoint) :
  length (escape_char c)
  = (1 + 4 * occurrences 38%N [c] + 3 * occurrences 60%N [c]
     + 3 * occurrences 62%N [c] + 5 * occurrences 34%N [c]
     + 5 * occurrences 39%N [c])%nat.
Proof.
  unfold escape_char, occurrences; cbn [filter].
  destruct (N.eqb_spec c 38) as [->|n1]; [reflexivity|].
  destruct (N.eqb_spec c 60) as [->|n2]; [reflexivity|].
  destruct (N.eqb_spec c 62) as [->|n3]; [reflexivity|].
  destruct (N.eqb_spec c 34) as [->|n4]; [reflexivity|].
  destruct (N.eqb_spec c 39) as [->|n5]; [reflexivity|].
  destruct (N.eqb_spec 38 c); [congruence|].
  destruct (N.eqb_spec 60 c); [congruence|].
  destruct (N.eqb_spec 62 c); [congruence|].
  destruct (N.eqb_spec 34 c); [congruence|].
  destruct (N.eqb_spec 39 c); [congruence|].
  reflexivity.
Qed.

Lemma occurrences_cons (c x : codepoint) (s : pystr) :
  occurrences c (x :: s) = (occurrences c [x] + occurrences c s)%nat.
Proof. unfold occurrences; simpl. now destruct (c =? x). Qed.

(** The escaped text is longer than the text by four characters for
    each ampersand, three for each [<] and [>], and five for each
    double quote and apostrophe. *)
Theorem escape_svg_text_length : forall s : pystr,
  length (escape_svg_text (Some s))
  = (length s + 4 * occurrences 38%N s + 3 * occurrences 60%N s
     + 3 * occurrences 62%N s + 5 * occurrences 34%N s
     + 5 * occurrences 39%N s)%nat.
Proof.
  intros s. rewrite escape_svg_text_flat_map.
  induction s as [|c s IH]; [reflexivity|].
  cbn [flat_map]. rewrite length_app, IH, escape_char_length.
  rewrite !(occurrences_cons _ c s). simpl length. lia.
Qed.

Lemma escape_char_head_inj (x y : codepoint) (u v : pystr) :
  escape_char x ++ u = escape_char y ++ v -> x = y /\ u = v.
Proof.
  unfold escape_char.
  destruct (N.eqb_spec x 38) as [->|x1];
    [|destruct (N.eqb_spec x 60) as [->|x2];
      [|destruct (N.eqb_spec x 62) as [->|x3];
        [|destruct (N.eqb_spec x 34) as [->|x4];
          [|destruct (N.eqb_spec x 39) as [->|x5]]]]];
  (destruct (N.eqb_spec y 38) as [->|y1];
    [|destruct (N.eqb_spec y 60) as [->|y2];
      [|destruct (N.eqb_spec y 62) as [->|y3];
        [|destruct (N.eqb_spec y 34) as [->|y4];
          [|destruct (N.eqb_spec y 39) as [->|y5]]]]]);
  cbn [app]; intros E; injection E; intros; subst;
    try congruence; auto.
Qed.

(** Escaping loses nothing: two texts with the same escaped form are
    the same text. *)
Theorem escape_svg_text_injective : forall a b : pystr,
  escape_svg_text (Some a) = escape_svg_text (Some b) -> a = b.
Proof.
  intros a b. rewrite !escape_svg_text_flat_map.
  revert b; induction a as [|x a IH]; intros [|y b]; cbn [flat_map].
  - reflexivity.
  - intros E. destruct (escape_char_cases y) as [(_ & _ & H & _) | [_ Hy]].
    + apply (f_equal (@length _)) in E. rewrite length_app in E.
      simpl in E. lia.
    + rewrite Hy in E. discriminate.
  - intros E. destruct (escape_char_cases x) as [(_ & _ & H & _) | [_ Hx]].
    + apply (f_equal (@length _)) in E. rewrite length_app in E.
      simpl in E. lia.
    + rewrite Hx in E. discriminate.
  - intros E. apply escape_char_head_inj in E as [-> E].
    f_equal. now apply IH.
Qed.

Lemma escape_svg_text_injective_witness :
  escape_svg_text (Some "a<b") = escape_svg_text (Some ("a" ++ "<b"))
  /\ "a<b" = "a" ++ "<b".
Proof.
  assert (E : escape_svg_text (Some "a<b")
              = escape_svg_text (Some ("a" ++ "<b"))) by reflexivity.
  split; [exact E|].
  exact (escape_svg_text_injective "a<b" ("a" ++ "<b") E).
Defined.

Lemma split_past (x : codepoint) (e rest pre post : pystr) :
  ~ In x e -> e ++ rest = pre ++ x :: post ->
  exists pre', pre = e ++ pre' /\ rest = pre' ++ x :: post.
Proof.
  revert pre; induction e as [|c e IH]; intros pre Hn E.
  - exists pre; auto.
  - destruct pre as [|p pre]; simpl in E; injection E as -> E.
    + exfalso; apply Hn; simpl; auto.
    + destruct (IH pre) as (pre' & -> & ->); [simpl in Hn; tauto | exact E |].
      exists pre'; auto.
Qed.

Lemma escape_char_entity (c : codepoint) :
  (exists e, In e entity_tails /\ escape_char c = 38 :: e /\ ~ In 38 e)
  \/ (c <> 38 /\ escape_char c = [c]).
Proof.
  unfold escape_char, entity_tails.
  destruct (N.eqb_spec c 38) as [->|n1].
  { left; eexists; split; [|split; [reflexivity|]]; simpl; [tauto|].
    intuition discriminate. }
  destruct (N.eqb_spec c 60) as [->|n2].
  { left; eexists; split; [|split; [reflexivity|]]; simpl; [tauto|].
    intuition discriminate. }
  destruct (N.eqb_spec c 62) as [->|n3].
  { left; eexists; split; [|split; [reflexivity|]]; simpl; [tauto|].
    intuition discriminate. }
  destruct (N.eqb_spec c 34) as [->|n4].
  { left; eexists; split; [|split; [reflexivity|]]; simpl; [tauto|].
    intuition discriminate. }
  destruct (N.eqb_spec c 39) as [->|n5].
  { left; eexists; split; [|split; [reflexivity|]]; simpl; [tauto|].
    intuition discriminate. }
  right; auto.
Qed.

(** The output never holds a bare ampersand: wherever an ampersand
    stands in the escaped text, the name of one of the five entities
    follows it. *)
Theorem escape_svg_text_no_bare_ampersand : forall s pre post : pystr,
  escape_svg_text (Some s) = pre ++ 38 :: post ->
  exists e rest, In e entity_tails /\ post = e ++ rest.
Proof.
  intros s pre post. rewrite escape_svg_text_flat_map.
  revert pre; induction s as [|c s IH]; intros pre; cbn [flat_map].
  - destruct pre; discriminate.
  - destruct (escape_char_entity c) as [(e & He & -> & Hn) | [Hc ->]].
    + destruct pre as [|p pre]; cbn [app]; intros E; injection E.
      * intros <-. eauto.
      * intros E' _. apply split_past in E' as (pre' & _ & E'); [|exact Hn].
        eapply IH; exact E'.
    + destruct pre as [|p pre]; cbn [app]; intros E; injection E.
      * intros _ ?; congruence.
      * intros E' _. eapply IH; exact E'.
Qed.

Lemma escape_svg_text_no_bare_ampersand_witness :
  exists e rest, In e entity_tails /\ "lt;b&amp;c" = e ++ rest.
Proof.
  apply (escape_svg_text_no_bare_ampersand "a<b&c" "a" "lt;b&amp;c").
  reflexivity.
Defined.

(** * Further properties of the decoder *)

(** ** What each combinator decodes to *)

(** A layer-tap key [LT(n,KC_X)], for any layer number [n] and letter
    [X], is labelled with the tap key [X] and described as [Ln/Tap],
    whatever follows the closing parenthesis. *)
Theorem parse_keycode_layer_tap :
  forall (n : pystr) (c : codepoint) (rest : pystr),
    n <> [] -> forallb cls_digit n = true -> cls_upper c = true ->
    parse_keycode ("LT(" ++ n ++ ",KC_" ++ [c] ++ ")" ++ rest)
    = ret ([c], "L" ++ n ++ "/Tap").
Proof.
  intros n c rest Hn Hd Hc. unfold parse_keycode, decoder_chain.
  do 4 (rewrite first_match_skip by reflexivity).
  apply first_match_hit. now apply lt_rule_fires.
Qed.

Lemma parse_keycode_layer_tap_witness :
  parse_keycode "LT(5,KC_S)" = ret ("S", "L5/Tap").
Proof.
  apply (parse_keycode_layer_tap "5" 83 []);
    [discriminate | reflexivity | reflexivity].
Defined.

(** A modifier-tap key [MOD_T(KC_X)] is labelled with the tap key [X]
    and described by the modifier's name and [/Tap]; the left and right
    modifiers share the name. *)
Theorem parse_keycode_mod_tap :
  forall (h : hand) (m : modifier) (c : codepoint) (rest : pystr),
    cls_upper c = true ->
    parse_keycode (modifier_code h m ++ "_T(KC_" ++ [c] ++ ")" ++ rest)
    = ret ([c], name m ++ "/Tap").
Proof.
  intros h m c rest Hc. unfold parse_keycode, decoder_chain.
  do 5 (rewrite first_match_skip by (destruct h, m; reflexivity)).
  apply first_match_hit. now apply mod_tap_rule_fires.
Qed.

Lemma parse_keycode_mod_tap_witness :
  parse_keycode "LCTL_T(KC_D)" = ret ("D", "Ctrl/Tap").
Proof.
  apply (parse_keycode_mod_tap LeftHand CTL 68 []). reflexivity.
Defined.

(** [MO(n)] and [DF(n)] decode for every layer number [n], of any
    length and in any decimal digits: the table's own entries for
    [DF(0)], [DF(1)] and [DF(2)] are never consulted. *)
Theorem parse_keycode_layer_switch : forall n rest : pystr,
  n <> [] -> forallb cls_digit n = true ->
  parse_keycode ("MO(" ++ n ++ ")" ++ rest)
  = ret ("MO" ++ n, "Momentary L" ++ n)
  /\ parse_keycode ("DF(" ++ n ++ ")" ++ rest)
     = ret ("L" ++ n, "Default L" ++ n).
Proof.
  intros n rest Hn Hd. unfold parse_keycode, decoder_chain. split.
  - do 6 (rewrite first_match_skip by reflexivity).
    apply first_match_hit. now apply mo_rule_fires.
  - do 7 (rewrite first_match_skip by reflexivity).
    apply first_match_hit. now apply df_rule_fires.
Qed.

Lemma parse_keycode_layer_switch_witness :
  parse_keycode "MO(12)" = ret ("MO12", "Momentary L12")
  /\ parse_keycode "DF(12)" = ret ("L12", "Default L12").
Proof.
  apply (parse_keycode_layer_switch "12" []); [discriminate | reflexivity].
Defined.

(** [ANY(inner)] is labelled with the first six characters of [inner]
    and described as [Any: inner], for every non-empty [inner] without
    a closing parenthesis. *)
Theorem parse_keycode_any : forall inner rest : pystr,
  inner <> [] -> forallb cls_not_rparen inner = true ->
  parse_keycode ("ANY(" ++ inner ++ ")" ++ rest)
  = ret (slice_to 6 inner, "Any: " ++ inner).
Proof.
  intros inner rest Hn Hd. unfold parse_keycode, decoder_chain.
  do 16 (rewrite first_match_skip by reflexivity).
  apply first_match_hit. now apply any_rule_fires.
Qed.

Lemma parse_keycode_any_witness :
  parse_keycode "ANY(UC_TABL)" = ret ("UC_TAB", "Any: UC_TABL").
Proof.
  apply (parse_keycode_any "UC_TABL" []); [discriminate | reflexivity].
Defined.

(** ** The closing parenthesis ends a combinator *)

Lemma forallb_not_In (p : codepoint -> bool) (a : codepoint) (l : pystr) :
  forallb p l = true -> p a = false -> ~ In a l.
Proof.
  intros H Ha Hin. rewrite forallb_forall in H. apply H in Hin. congruence.
Qed.

Lemma first_rparen_unique (b1 r1 b2 r2 : pystr) :
  ~ In 41 b1 -> ~ In 41 b2 ->
  b1 ++ 41 :: r1 = b2 ++ 41 :: r2 -> b1 = b2 /\ r1 = r2.
Proof.
  revert b2; induction b1 as [|x b1 IH]; intros [|y b2] H1 H2 E;
    simpl in *.
  - injection E as ->; auto.
  - injection E as <- _. tauto.
  - injection E as -> _. tauto.
  - injection E as -> E. destruct (IH b2) as [-> ->]; auto.
Qed.

Lemma cls_upper_digit_not_rparen (c : codepoint) :
  cls_upper_digit c = true -> c <> 41.
Proof. intros H ->. discriminate H. Qed.

Lemma cls_upper_not_rparen (c : codepoint) : cls_upper c = true -> c <> 41.
Proof. intros H ->. discriminate H. Qed.

(** A well-formed combinator has one closing parenthesis, its last
    character. *)
Lemma combinator_body (k : combinator_kind) (c : pystr) :
  combinator k c -> exists body, c = body ++ [41] /\ ~ In 41 body.
Proof.
  intros [h m x Hx | pre x Hp Hx | n x Hn Hd Hx | h m x Hx
         | n Hn Hd | n Hn Hd | n Hn Hd | n Hn Hd].
  - apply cls_upper_digit_not_rparen in Hx.
    exists (modifier_code h m ++ "(KC_" ++ [x]). split; [now reassoc|].
    destruct h, m; simpl; intuition (try discriminate; congruence).
  - apply cls_upper_digit_not_rparen in Hx.
    exists (pre ++ "(KC_" ++ [x]). split; [now reassoc|].
    simpl in Hp. destruct Hp as [<-|[<-|[<-|[]]]];
      simpl; intuition (try discriminate; congruence).
  - apply cls_upper_not_rparen in Hx.
    exists ("LT(" ++ n ++ ",KC_" ++ [x]). split; [now reassoc|].
    pose proof (forallb_not_In cls_digit 41 n Hd cls_digit_rparen) as Hn'.
    cbn [app]. intros [E|[E|[E|Hin]]]; try discriminate.
    apply in_app_or in Hin as [Hin|Hin]; [tauto|].
    simpl in Hin; intuition (try discriminate; congruence).
  - apply cls_upper_not_rparen in Hx.
    exists (modifier_code h m ++ "_T(KC_" ++ [x]). split; [now reassoc|].
    destruct h, m; simpl; intuition (try discriminate; congruence).
  - exists ("MO(" ++ n). split; [now reassoc|].
    pose proof (forallb_not_In cls_digit 41 n Hd cls_digit_rparen) as Hn'.
    simpl; intuition discriminate.
  - exists ("DF(" ++ n). split; [now reassoc|].
    pose proof (forallb_not_In cls_digit 41 n Hd cls_digit_rparen) as Hn'.
    simpl; intuition discriminate.
  - exists ("ANY(" ++ n). split; [now reassoc|].
    pose proof (forallb_not_In cls_not_rparen 41 n Hd cls_not_rparen_rparen)
      as Hn'.
    simpl; intuition discriminate.
  - exists ("LSFT(" ++ n). split; [now reassoc|].
    pose proof (forallb_not_In cls_not_rparen 41 n Hd cls_not_rparen_rparen)
      as Hn'.
    simpl; intuition discriminate.
Qed.

(** A string begins with at most one well-formed combinator. *)
Lemma combinator_prefix_unique (k k' : combinator_kind) (c c' r r' : pystr) :
  combinator k c -> combinator k' c' -> c ++ r = c' ++ r' ->
  c = c' /\ r = r'.
Proof.
  intros H H' E.
  apply combinator_body in H as (b & -> & Hb).
  apply combinator_body in H' as (b' & -> & Hb').
  rewrite <- !app_assoc in E. cbn [app] in E.
  apply first_rparen_unique in E as [-> ->]; auto.
Qed.

(** When a string begins with a well-formed combinator, each combinator
    rule answers the same with text appended. *)
Lemma rule_of_append (k k' : combinator_kind) (c rest t : pystr) :
  combinator k' c ->
  rule_of k ((c ++ rest) ++ t) = rule_of k (c ++ rest).
Proof.
  intros Hc.
  destruct (rule_of k (c ++ rest)) as [r|] eqn:E.
  - destruct (combinator_rule_prefix k _ r E) as (c1 & r1 & _ & E1 & Ht).
    rewrite E1, <- app_assoc. apply Ht.
  - destruct (rule_of k ((c ++ rest) ++ t)) as [r|] eqn:E'; [|reflexivity].
    destruct (combinator_rule_prefix k _ r E') as (c1 & r1 & Hc1 & E1 & Ht).
    rewrite <- app_assoc in E1.
    apply (combinator_prefix_unique k' k c c1 _ _ Hc Hc1) in E1 as [<- _].
    specialize (Ht rest). congruence.
Qed.

Lemma In_rparen_combinator (k : combinator_kind) (c rest : pystr) :
  combinator k c -> In 41 (c ++ rest).
Proof.
  intros H. apply combinator_body in H as (b & -> & _).
  apply in_or_app; left. apply in_or_app; right. simpl; auto.
Qed.

(** The blocks that compare the whole input with a fixed code do not
    answer for a string with a closing parenthesis. *)
Lemma no_key_rule_rparen (s : pystr) : In 41 s -> no_key_rule s = None.
Proof.
  intros H. unfold no_key_rule. destruct s as [|c s]; [destruct H|].
  cbn [truthy negb orb].
  destruct (str_eqb (c :: s) "KC_NO") eqn:E; [|reflexivity].
  apply str_eqb_eq in E. rewrite E in H.
  simpl in H; intuition discriminate.
Qed.

Lemma transparent_rule_rparen (s : pystr) :
  In 41 s -> transparent_rule s = None.
Proof.
  intros H. unfold transparent_rule.
  destruct (str_eqb s "KC_TRNS") eqn:E; [|reflexivity].
  apply str_eqb_eq in E. rewrite E in H.
  simpl in H; intuition discriminate.
Qed.

Lemma equals_rule_rparen (code short long s : pystr) :
  ~ In 41 code -> In 41 s -> equals_rule code short long s = None.
Proof.
  intros Hc H. unfold equals_rule.
  destruct (str_eqb s code) eqn:E; [|reflexivity].
  apply str_eqb_eq in E. congruence.
Qed.

Lemma numpad_rule_rparen (s : pystr) : In 41 s -> numpad_rule s = None.
Proof.
  intros H. unfold numpad_rule.
  destruct (dict_mem s numpad_keys) eqn:E; [|reflexivity].
  apply dict_mem_inv in E as (v & Hin & _).
  assert (F : forallb (fun kv : pystr * pystr =>
                         negb (existsb (N.eqb 41) (fst kv))) numpad_keys
              = true) by reflexivity.
  rewrite forallb_forall in F. apply F in Hin. cbn [fst] in Hin.
  apply negb_true_iff in Hin.
  assert (T : existsb (N.eqb 41) s = true).
  { apply existsb_exists. exists 41; split; [exact H | apply N.eqb_refl]. }
  congruence.
Qed.

Lemma first_match_same (pre post : list rule)
  (fallback : pystr -> res (pystr * pystr)) (s s' : pystr) :
  Forall (fun rl : rule => rl s' = rl s) pre ->
  Exists (fun rl : rule => rl s <> None) pre ->
  first_match (pre ++ post) fallback s'
  = first_match (pre ++ post) fallback s.
Proof.
  induction 1 as [|rl pre H _ IH]; intros Hex.
  - inversion Hex.
  - cbn [app first_match]. rewrite H.
    destruct (rl s) as [r|] eqn:E; [reflexivity|].
    apply IH. inversion Hex; subst; [congruence | assumption].
Qed.

(** Whenever the input begins with a well-formed combinator, the
    decoder ignores everything after its closing parenthesis. *)
Theorem parse_keycode_ignores_trailing_text :
  forall (k : combinator_kind) (c t : pystr),
    combinator k c -> parse_keycode (c ++ t) = parse_keycode c.
Proof.
  intros k c t Hc.
  assert (Hr : forall k', rule_of k' (c ++ t) = rule_of k' c).
  { intros k'. pose proof (rule_of_append k' k c [] t Hc) as H.
    now rewrite app_nil_r in H. }
  assert (H41 : In 41 c).
  { pose proof (In_rparen_combinator k c [] Hc) as H.
    now rewrite app_nil_r in H. }
  assert (H41' : In 41 (c ++ t)) by (apply in_or_app; auto).
  unfold parse_keycode.
  change decoder_chain with
    ([ no_key_rule; transparent_rule; rule_of ModKey; rule_of Shift;
       rule_of LayerTap; rule_of ModTap; rule_of Momentary;
       rule_of DefaultLayer; qk_rep_rule; qk_boot_rule; qk_rbt_rule;
       ee_clr_rule; db_togg_rule; sc_lspo_rule; sc_rspc_rule; numpad_rule;
       rule_of AnyWrapper; rule_of ShiftWrapper ]
     ++ [ table_rule; kc_prefix_rule ]).
  apply first_match_same.
  - repeat constructor; try apply Hr.
    + now rewrite !no_key_rule_rparen.
    + now rewrite !transparent_rule_rparen.
    + unfold qk_rep_rule.
      rewrite !equals_rule_rparen; auto; simpl; intuition discriminate.
    + unfold qk_boot_rule.
      rewrite !equals_rule_rparen; auto; simpl; intuition discriminate.
    + unfold qk_rbt_rule.
      rewrite !equals_rule_rparen; auto; simpl; intuition discriminate.
    + unfold ee_clr_rule.
      rewrite !equals_rule_rparen; auto; simpl; intuition discriminate.
    + unfold db_togg_rule.
      rewrite !equals_rule_rparen; auto; simpl; intuition discriminate.
    + unfold sc_lspo_rule.
      rewrite !equals_rule_rparen; auto; simpl; intuition discriminate.
    + unfold sc_rspc_rule.
      rewrite !equals_rule_rparen; auto; simpl; intuition discriminate.
    + now rewrite !numpad_rule_rparen.
  - destruct (combinator_fires k c Hc) as [r Hfire].
    specialize (Hfire []). rewrite app_nil_r in Hfire.
    assert (Hk : rule_of k c <> None) by congruence.
    destruct k;
      repeat (first [ apply Exists_cons_hd; exact Hk | apply Exists_cons_tl ]).
Qed.

Lemma parse_keycode_ignores_trailing_text_witness :
  parse_keycode ("LT(5,KC_S)" ++ " // tap") = parse_keycode "LT(5,KC_S)".
Proof.
  apply (parse_keycode_ignores_trailing_text LayerTap).
  apply (comb_layer_tap "5" 83); [discriminate | reflexivity | reflexivity].
Defined.

(** ** The fallback [LSFT(inner)] block *)

Lemma lsft_not_mod_combo (inner rest : pystr) :
  ~ In 41 inner ->
  (forall c, cls_upper_digit c = true -> inner <> "KC_" ++ [c]) ->
  mod_combo_rule ("LSFT(" ++ inner ++ ")" ++ rest) = None
  /\ shift_rule ("LSFT(" ++ inner ++ ")" ++ rest) = None.
Proof.
  intros Hn Hk. split.
  - destruct (mod_combo_rule _) as [r|] eqn:E; [|reflexivity]. exfalso.
    apply mod_combo_rule_inv in E as (h & m & c & rest' & E & Hc & _).
    destruct h, m; cbn [modifier_code hand_letter modifier_letters app] in E;
      try discriminate E.
    injection E as E. symmetry in E.
    apply (first_rparen_unique ("KC_" ++ [c]) rest' inner rest) in E
      as [E _]; auto.
    + apply (Hk c Hc). now symmetry.
    + apply cls_upper_digit_not_rparen in Hc.
      simpl; intuition (try discriminate; congruence).
  - destruct (shift_rule _) as [r|] eqn:E; [|reflexivity]. exfalso.
    apply shift_rule_inv in E as (pre & c & rest' & E & Hp & Hc & _).
    simpl in Hp. destruct Hp as [<-|[<-|[<-|[]]]]; cbn [app] in E;
      try discriminate E.
    injection E as E. symmetry in E.
    apply (first_rparen_unique ("KC_" ++ [c]) rest' inner rest) in E
      as [E _]; auto.
    + apply (Hk c Hc). now symmetry.
    + apply cls_upper_digit_not_rparen in Hc.
      simpl; intuition (try discriminate; congruence).
Qed.

Lemma parse_keycode_lsft (inner rest : pystr) :
  inner <> [] -> forallb cls_not_rparen inner = true ->
  (forall c, cls_upper_digit c = true -> inner <> "KC_" ++ [c]) ->
  parse_keycode ("LSFT(" ++ inner ++ ")" ++ rest) = ret (lsft_labels inner).
Proof.
  intros Hn Hd Hk.
  pose proof (forallb_not_In cls_not_rparen 41 inner Hd cls_not_rparen_rparen)
    as H41.
  destruct (lsft_not_mod_combo inner rest H41 Hk) as [E1 E2].
  unfold parse_keycode, decoder_chain.
  do 2 (rewrite first_match_skip by reflexivity).
  rewrite first_match_skip by exact E1.
  rewrite first_match_skip by exact E2.
  do 13 (rewrite first_match_skip by reflexivity).
  apply first_match_hit. now apply lsft_rule_fires.
Qed.

(** The fallback shift wrapper.  [LSFT(KC_key)], where [key] is not a
    single uppercase letter or digit and not [TAB], is labelled with the
    shift symbol and the first four characters of [key]; [LSFT(inner)]
    with an [inner] that lacks the [KC_] prefix, likewise from [inner];
    and [LSFT(KC_TAB)] with the shift and tab symbols. *)
Theorem parse_keycode_shift_wrapper :
  (forall key rest : pystr,
      forallb cls_not_rparen key = true ->
      key <> "TAB" ->
      (forall c, cls_upper_digit c = true -> key <> [c]) ->
      parse_keycode ("LSFT(KC_" ++ key ++ ")" ++ rest)
      = ret ("⇧" ++ slice_to 4 key, "Shift+" ++ key))
  /\ (forall inner rest : pystr,
         inner <> [] -> forallb cls_not_rparen inner = true ->
         startswith inner "KC_" = false ->
         parse_keycode ("LSFT(" ++ inner ++ ")" ++ rest)
         = ret ("⇧" ++ slice_to 4 inner, "Shift+" ++ inner))
  /\ (forall rest : pystr,
         parse_keycode ("LSFT(KC_TAB)" ++ rest) = ret ("⇧⇥", "Shift+Tab")).
Proof.
  split; [|split].
  - intros key rest Hd Hk Hc.
    change ("LSFT(KC_" ++ key ++ ")" ++ rest)
      with ("LSFT(" ++ ("KC_" ++ key) ++ ")" ++ rest).
    rewrite parse_keycode_lsft.
    + unfold lsft_labels.
      change (startswith ("KC_" ++ key) "KC_") with true.
      change (slice_from 3 ("KC_" ++ key)) with key. cbv iota zeta.
      destruct (str_eqb key "TAB") eqn:E; [|reflexivity].
      apply str_eqb_eq in E. contradiction.
    + discriminate.
    + cbn [forallb app]. now rewrite Hd.
    + intros c Hx E. injection E as E. now apply (Hc c).
  - intros inner rest Hn Hd Hs. rewrite parse_keycode_lsft; auto.
    + unfold lsft_labels. now rewrite Hs.
    + intros c _ E. rewrite E in Hs. discriminate Hs.
  - intros rest.
    change ("LSFT(KC_TAB)" ++ rest) with ("LSFT(" ++ "KC_TAB" ++ ")" ++ rest).
    rewrite parse_keycode_lsft; [reflexivity | discriminate | reflexivity |].
    intros c _ E. discriminate E.
Qed.

Lemma parse_keycode_shift_wrapper_witness :
  parse_keycode "LSFT(KC_ESC)" = ret ("⇧ESC", "Shift+ESC")
  /\ parse_keycode "LSFT(QK_BOOT)" = ret ("⇧QK_B", "Shift+QK_BOOT").
Proof.
  split.
  - apply (proj1 parse_keycode_shift_wrapper "ESC" []);
      [reflexivity | discriminate | intros c _ E; discriminate E].
  - apply (proj1 (proj2 parse_keycode_shift_wrapper) "QK_BOOT" []);
      [discriminate | reflexivity | reflexivity].
Defined.

(** ** The tables *)

Lemma result_eqb_eq (a b : res (pystr * pystr)) :
  result_eqb a b = true -> a = b.
Proof.
  destruct a as [e|[s1 l1]], b as [e'|[s2 l2]]; simpl; try discriminate.
  rewrite andb_true_iff, !str_eqb_eq. now intros [-> ->].
Qed.

Lemma result_eqb_neq (a b : res (pystr * pystr)) :
  result_eqb a b = false -> (exists p, b = ret p) -> a <> b.
Proof.
  intros H [[s2 l2] ->] ->. simpl in H.
  now rewrite !str_eqb_refl in H.
Qed.

Lemma existsb_str_eqb (k : pystr) (l : list pystr) :
  existsb (str_eqb k) l = true <-> In k l.
Proof.
  rewrite existsb_exists. split.
  - intros (x & Hin & E). apply str_eqb_eq in E. now subst.
  - intros H. exists k; split; [exact H | apply str_eqb_refl].
Qed.

(** Every key of the static table decodes to its table label, with the
    key itself as description, except the six keys an earlier block
    answers ([KC_TRNS], [DF(0)], [DF(1)], [DF(2)], [QK_BOOT], [DB_TOGG]):
    for those the table's pair is never returned. *)
Theorem table_keys_decoded : forall k v : pystr,
  In (k, v) QMK_KEYCODE_MAP ->
  (~ In k shadowed_keys /\ parse_keycode k = ret (v, k))
  \/ (In k shadowed_keys /\ parse_keycode k <> ret (v, k)).
Proof.
  intros k v Hin.
  assert (F : forallb
                (fun kv : pystr * pystr =>
                   xorb (result_eqb (parse_keycode (fst kv))
                           (ret (snd kv, fst kv)))
                        (existsb (str_eqb (fst kv)) shadowed_keys))
                QMK_KEYCODE_MAP = true) by (vm_compute; reflexivity).
  rewrite forallb_forall in F. apply F in Hin. cbn [fst snd] in Hin.
  destruct (result_eqb _ _) eqn:E1;
    destruct (existsb _ shadowed_keys) eqn:E2; try discriminate Hin.
  - left. split.
    + rewrite <- existsb_str_eqb. congruence.
    + now apply result_eqb_eq.
  - right. split.
    + now apply existsb_str_eqb.
    + apply result_eqb_neq; eauto.
Qed.

Lemma table_keys_decoded_witness :
  (~ In "KC_ESC" shadowed_keys /\ parse_keycode "KC_ESC" = ret ("⎋", "KC_ESC"))
  \/ (In "KC_ESC" shadowed_keys
      /\ parse_keycode "KC_ESC" <> ret ("⎋", "KC_ESC")).
Proof.
  apply (table_keys_decoded "KC_ESC" "⎋").
  apply dict_find_In. reflexivity.
Defined.

(** Every numpad key decodes to its symbol, described as [Numpad]
    followed by the symbol. *)
Theorem numpad_keys_decoded : forall k v : pystr,
  In (k, v) numpad_keys -> parse_keycode k = ret (v, "Numpad " ++ v).
Proof.
  intros k v Hin.
  assert (F : forallb
                (fun kv : pystr * pystr =>
                   result_eqb (parse_keycode (fst kv))
                     (ret (snd kv, "Numpad " ++ snd kv)))
                numpad_keys = true) by (vm_compute; reflexivity).
  rewrite forallb_forall in F. apply F in Hin.
  now apply result_eqb_eq in Hin.
Qed.

Lemma numpad_keys_decoded_witness :
  parse_keycode "KC_PENT" = ret ("↵", "Numpad ↵").
Proof.
  apply (numpad_keys_decoded "KC_PENT" "↵").
  apply dict_find_In. reflexivity.
Defined.

(** ** Key names outside the table *)

Lemma special_mappings_in_table (short : pystr) :
  dict_mem short special_mappings = true ->
  dict_mem ("KC_" ++ short) QMK_KEYCODE_MAP = true.
Proof.
  intros H. apply dict_mem_inv in H as (v & Hin & _).
  simpl in Hin.
  repeat (destruct Hin as [Hin|Hin]; [injection Hin as <- _; reflexivity|]).
  destruct Hin.
Qed.

(** The special symbols of the [KC_] block are never used by the
    decoder: each of their key names is in the static table, which
    answers first.  When the [KC_] block is reached, it returns the
    first six characters after the prefix. *)
Theorem special_mappings_unreachable :
  forall (s : pystr) (r : res (pystr * pystr)),
    table_rule s = None -> kc_prefix_rule s = Some r ->
    dict_mem (slice_from 3 s) special_mappings = false
    /\ r = ret (slice_to 6 (slice_from 3 s), s).
Proof.
  intros s r Ht Hk. unfold kc_prefix_rule in Hk.
  destruct (startswith s "KC_") eqn:Es; [|discriminate].
  apply startswith_inv in Es. cbn [length] in Es.
  assert (Hm : dict_mem (slice_from 3 s) special_mappings = false).
  { destruct (dict_mem (slice_from 3 s) special_mappings) eqn:Em;
      [|reflexivity].
    apply special_mappings_in_table in Em. rewrite <- Es in Em.
    unfold table_rule in Ht. rewrite Em in Ht. discriminate. }
  split; [exact Hm|].
  cbv zeta in Hk. rewrite Hm in Hk. now injection Hk as <-.
Qed.

Lemma special_mappings_unreachable_witness :
  dict_mem (slice_from 3 "KC_PSCR") special_mappings = false
  /\ ret ("PSCR", "KC_PSCR") = ret (slice_to 6 (slice_from 3 "KC_PSCR"), "KC_PSCR").
Proof.
  apply (special_mappings_unreachable "KC_PSCR"); reflexivity.
Defined.

(** A key name [KC_name] that is neither in the static table nor a
    numpad key nor [KC_NO] is labelled with the first six characters of
    [name] and described by the whole code. *)
Theorem parse_keycode_kc_prefix : forall name_ : pystr,
  name_ <> "NO" ->
  dict_mem ("KC_" ++ name_) numpad_keys = false ->
  dict_mem ("KC_" ++ name_) QMK_KEYCODE_MAP = false ->
  parse_keycode ("KC_" ++ name_) = ret (slice_to 6 name_, "KC_" ++ name_).
Proof.
  intros s Hno Hnum Htab.
  assert (Ht : table_rule ("KC_" ++ s) = None).
  { unfold table_rule. now rewrite Htab. }
  assert (E1 : no_key_rule ("KC_" ++ s) = None).
  { unfold no_key_rule. cbn [truthy app negb orb].
    destruct (str_eqb _ "KC_NO") eqn:E; [|reflexivity].
    apply str_eqb_eq in E. injection E as E. contradiction. }
  assert (E2 : transparent_rule ("KC_" ++ s) = None).
  { unfold transparent_rule.
    destruct (str_eqb _ "KC_TRNS") eqn:E; [|reflexivity].
    apply str_eqb_eq in E. rewrite E in Htab. discriminate Htab. }
  assert (E3 : numpad_rule ("KC_" ++ s) = None).
  { unfold numpad_rule. now rewrite Hnum. }
  unfold parse_keycode, decoder_chain.
  rewrite first_match_skip by exact E1.
  rewrite first_match_skip by exact E2.
  do 13 (rewrite first_match_skip by reflexivity).
  rewrite first_match_skip by exact E3.
  do 2 (rewrite first_match_skip by reflexivity).
  rewrite first_match_skip by exact Ht.
  apply first_match_hit.
  assert (Hk : exists r, kc_prefix_rule ("KC_" ++ s) = Some r).
  { unfold kc_prefix_rule.
    change (startswith ("KC_" ++ s) "KC_") with true. cbv iota. eauto. }
  destruct Hk as [r Hk]. rewrite Hk.
  destruct (special_mappings_unreachable _ r Ht Hk) as [_ ->].
  reflexivity.
Qed.

Lemma parse_keycode_kc_prefix_witness :
  parse_keycode "KC_PSCREEN" = ret ("PSCREE", "KC_PSCREEN").
Proof.
  apply (parse_keycode_kc_prefix "PSCREEN"); [discriminate | reflexivity..].
Defined.

(** * The layer renderer *)

(** ** [str.replace] *)

Lemma replace_from_absent (o : codepoint) (old' new s : pystr) :
  ~ In o s -> replace_from (o :: old') new 0 s = s.
Proof.
  induction s as [|c s IH]; intros H; [reflexivity|].
  cbn [replace_from]. unfold startswith. cbn [strip_prefix].
  destruct (N.eqb_spec c o) as [->|n]; [exfalso; apply H; simpl; auto|].
  f_equal. apply IH. simpl in H; tauto.
Qed.

Lemma replace_from_past (o : codepoint) (old' new pre s : pystr) :
  ~ In o pre ->
  replace_from (o :: old') new 0 (pre ++ s)
  = pre ++ replace_from (o :: old') new 0 s.
Proof.
  induction pre as [|c pre IH]; intros H; [reflexivity|].
  cbn [app replace_from]. unfold startswith. cbn [strip_prefix].
  destruct (N.eqb_spec c o) as [->|n]; [exfalso; apply H; simpl; auto|].
  f_equal. apply IH. simpl in H; tauto.
Qed.

Lemma replace_from_skip (old new a s : pystr) :
  replace_from old new (length a) (a ++ s) = replace_from old new 0 s.
Proof.
  induction a as [|x a IH]; [destruct s; reflexivity|].
  cbn [length app replace_from]. exact IH.
Qed.

Lemma replace_from_hit (o : codepoint) (old' new post : pystr) :
  replace_from (o :: old') new 0 ((o :: old') ++ post)
  = new ++ replace_from (o :: old') new 0 post.
Proof.
  cbn [app replace_from]. unfold startswith.
  change (o :: old' ++ post) with ((o :: old') ++ post).
  rewrite strip_prefix_app.
  change (length (o :: old') - 1)%nat with (length old' - 0)%nat.
  rewrite Nat.sub_0_r.
  now rewrite replace_from_skip.
Qed.

Lemma replace_from_miss (c : codepoint) (t old new : pystr) :
  startswith (c :: t) old = false ->
  replace_from old new 0 (c :: t) = c :: replace_from old new 0 t.
Proof. intros H. cbn [replace_from]. now rewrite H. Qed.

Lemma clash_strip (a b post : pystr) :
  clash a b = true -> strip_prefix a (b ++ post) = None.
Proof.
  revert b; induction a as [|x a IH]; intros [|y b]; simpl; try discriminate.
  rewrite (N.eqb_sym y x). destruct (x =? y); [apply IH | reflexivity].
Qed.

Lemma startswith_clash (old ph post : pystr) :
  clash old ph = true -> startswith (ph ++ post) old = false.
Proof. intros H. unfold startswith. now rewrite clash_strip. Qed.

(** ** One replacement of a placeholder *)

Lemma placeholder_shape_inv (ph : pystr) :
  placeholder_shape ph = true ->
  exists b, ph = 123 :: 123 :: b /\ ~ In 123 b.
Proof.
  destruct ph as [|x [|y b]]; try discriminate; cbn [placeholder_shape].
  destruct (N.eqb_spec x 123) as [->|]; [|discriminate].
  destruct (N.eqb_spec y 123) as [->|]; [|discriminate].
  cbn [andb]. intros H. exists b; split; [reflexivity|].
  apply negb_true_iff in H. intros Hin.
  assert (T : existsb (N.eqb 123) b = true).
  { apply existsb_exists. exists 123; split; [exact Hin | reflexivity]. }
  congruence.
Qed.

(** Text without an opening brace holds no placeholder. *)
Lemma replace_absent (s old new : pystr) :
  placeholder_shape old = true -> ~ In 123 s -> str_replace s old new = s.
Proof.
  intros Ho Hs. apply placeholder_shape_inv in Ho as (b & -> & _).
  now apply replace_from_absent.
Qed.

(** The one placeholder of a text is replaced where it stands. *)
Lemma replace_this (pre ph post new : pystr) :
  placeholder_shape ph = true -> ~ In 123 pre -> ~ In 123 post ->
  str_replace (pre ++ ph ++ post) ph new = pre ++ new ++ post.
Proof.
  intros Ho Hpre Hpost. apply placeholder_shape_inv in Ho as (b & -> & _).
  unfold str_replace.
  rewrite replace_from_past by exact Hpre.
  rewrite replace_from_hit.
  now rewrite replace_from_absent by exact Hpost.
Qed.

(** Another placeholder leaves the text as it is. *)
Lemma replace_other (pre ph post old new : pystr) :
  placeholder_shape ph = true -> placeholder_shape old = true ->
  clash old ph = true ->
  ~ In 123 pre -> ~ In 123 post ->
  str_replace (pre ++ ph ++ post) old new = pre ++ ph ++ post.
Proof.
  intros Hp Ho Hc Hpre Hpost.
  apply placeholder_shape_inv in Hp as (b & -> & Hb).
  apply placeholder_shape_inv in Ho as (o & -> & _).
  unfold str_replace.
  rewrite replace_from_past by exact Hpre. f_equal.
  assert (Hbp : ~ In 123 (b ++ post)).
  { intros H. apply in_app_or in H. tauto. }
  change ((123 :: 123 :: b) ++ post) with (123 :: 123 :: b ++ post).
  rewrite replace_from_miss.
  2:{ exact (startswith_clash _ _ post Hc). }
  f_equal. rewrite replace_from_miss.
  2:{ unfold startswith. cbn [strip_prefix]. rewrite N.eqb_refl.
      destruct (b ++ post) as [|x t]; [reflexivity|].
      destruct (N.eqb_spec x 123) as [->|n]; [|reflexivity].
      exfalso; apply Hbp; simpl; auto. }
  f_equal. now apply replace_from_absent.
Qed.

(** ** The placeholders *)

Lemma placeholders_shaped (i : nat) :
  (i < 60)%nat ->
  placeholder_shape (key_placeholder i) = true
  /\ placeholder_shape (sub_placeholder i) = true.
Proof.
  intros H.
  assert (F : forallb (fun i => placeholder_shape (key_placeholder i)
                                && placeholder_shape (sub_placeholder i))
                (seq 0 60) = true) by (vm_compute; reflexivity).
  rewrite forallb_forall in F.
  specialize (F i). rewrite in_seq in F.
  apply andb_true_iff. apply F. lia.
Qed.

(** Two placeholders of the template never begin one another. *)
Lemma placeholders_clash (i j : nat) :
  (i < 60)%nat -> (j < 60)%nat ->
  clash (sub_placeholder j) (key_placeholder i) = true
  /\ clash (key_placeholder j) (sub_placeholder i) = true
  /\ clash "{{LAYER_TITLE}}" (key_placeholder i) = true
  /\ clash "{{LAYER_SUBTITLE}}" (key_placeholder i) = true
  /\ clash "{{LAYER_TITLE}}" (sub_placeholder i) = true
  /\ clash "{{LAYER_SUBTITLE}}" (sub_placeholder i) = true
  /\ (i <> j ->
      clash (key_placeholder j) (key_placeholder i) = true
      /\ clash (sub_placeholder j) (sub_placeholder i) = true).
Proof.
  intros Hi Hj.
  assert (F : forallb (fun i => forallb (fun j =>
                clash (sub_placeholder j) (key_placeholder i)
                && clash (key_placeholder j) (sub_placeholder i)
                && clash "{{LAYER_TITLE}}" (key_placeholder i)
                && clash "{{LAYER_SUBTITLE}}" (key_placeholder i)
                && clash "{{LAYER_TITLE}}" (sub_placeholder i)
                && clash "{{LAYER_SUBTITLE}}" (sub_placeholder i)
                && (Nat.eqb i j
                    || clash (key_placeholder j) (key_placeholder i)
                       && clash (sub_placeholder j) (sub_placeholder i)))
                (seq 0 60)) (seq 0 60) = true) by (vm_compute; reflexivity).
  rewrite forallb_forall in F. specialize (F i).
  rewrite in_seq in F. specialize (F ltac:(lia)).
  rewrite forallb_forall in F. specialize (F j).
  rewrite in_seq in F. specialize (F ltac:(lia)).
  rewrite !andb_true_iff in F.
  destruct F as [[[[[[F1 F2] F3] F4] F5] F6] F7].
  do 6 (split; [assumption|]).
  intros Hne. apply orb_true_iff in F7 as [F7|F7].
  - apply Nat.eqb_eq in F7. contradiction.
  - now apply andb_true_iff in F7.
Qed.

Lemma escape_keeps_braces_out (s : pystr) :
  ~ In 123 s -> ~ In 123 (escape_svg_text (Some s)).
Proof.
  rewrite escape_svg_text_flat_map. intros H Hin.
  apply in_flat_map in Hin as (c & Hc & Hin).
  destruct (escape_char_entity c) as [(e & He & E & _) | [_ E]];
    rewrite E in Hin.
  - simpl in He, Hin. destruct Hin as [Hin|Hin]; [discriminate|].
    destruct He as [<-|[<-|[<-|[<-|[<-|[]]]]]];
      simpl in Hin; intuition discriminate.
  - simpl in Hin. destruct Hin as [->|[]]. contradiction.
Qed.

Lemma uint_chars_no_brace (u : Decimal.uint) : ~ In 123 (uint_chars u).
Proof. induction u; simpl; intuition discriminate. Qed.

Lemma str_of_int_no_brace (z : Z) : ~ In 123 (str_of_int z).
Proof.
  destruct z; simpl; [intuition discriminate | apply uint_chars_no_brace |].
  intros [H|H]; [discriminate | now apply uint_chars_no_brace in H].
Qed.

(** ** The loops of [generate_layer_svg] *)

Lemma not_in_app3 (x : codepoint) (a b c : pystr) :
  ~ In x a -> ~ In x b -> ~ In x c -> ~ In x (a ++ b ++ c).
Proof.
  intros Ha Hb Hc H. apply in_app_or in H as [H|H]; [tauto|].
  apply in_app_or in H. tauto.
Qed.

Section LayerFacts.

Variable py_str : json -> pystr.

Lemma parse_short_label (keycode : json) :
  exists long,
    parse_keycode (keycode_text py_str keycode)
    = ret (short_label py_str keycode, long).
Proof.
  unfold short_label.
  destruct (parse_keycode_label (keycode_text py_str keycode))
    as (short & long & -> & _).
  now exists long.
Qed.

Lemma fill_keys_step (i : nat) (keycode : json) (rest : list json)
  (svg : pystr) :
  (i < 60)%nat ->
  fill_keys py_str i (keycode :: rest) svg
  = fill_keys py_str (S i) rest
      (str_replace
         (str_replace svg (key_placeholder i)
            (escape_svg_text (Some (short_label py_str keycode))))
         (sub_placeholder i) []).
Proof.
  intros H. cbn [fill_keys].
  destruct (Nat.leb_spec 60 i); [lia|].
  destruct (parse_short_label keycode) as [long ->]. reflexivity.
Qed.

Lemma fill_keys_stop (i : nat) (layer : list json) (svg : pystr) :
  (60 <= i)%nat -> fill_keys py_str i layer svg = ret svg.
Proof.
  intros H. destruct layer; [reflexivity|]. cbn [fill_keys].
  destruct (Nat.leb_spec 60 i); [reflexivity | lia].
Qed.

Lemma fill_keys_total (layer : list json) :
  forall (i : nat) (svg : pystr),
    exists svg', fill_keys py_str i layer svg = ret svg'.
Proof.
  induction layer as [|keycode rest IH]; intros i svg; [now exists svg|].
  destruct (Nat.lt_ge_cases i 60) as [H|H].
  - rewrite fill_keys_step by exact H. apply IH.
  - rewrite fill_keys_stop by exact H. now exists svg.
Qed.

(** A text without an opening brace goes through both loops unchanged. *)
Lemma fill_keys_done (layer : list json) :
  forall (i : nat) (svg : pystr),
    ~ In 123 svg -> fill_keys py_str i layer svg = ret svg.
Proof.
  induction layer as [|keycode rest IH]; intros i svg Hs; [reflexivity|].
  destruct (Nat.lt_ge_cases i 60) as [H|H].
  - rewrite fill_keys_step by exact H.
    destruct (placeholders_shaped i H) as [Hk Hb].
    rewrite (replace_absent svg _ _ Hk Hs), (replace_absent svg _ _ Hb Hs).
    now apply IH.
  - now apply fill_keys_stop.
Qed.

Lemma clear_fold_done (n : nat) :
  forall (a : nat) (svg : pystr),
    (a + n <= 60)%nat -> ~ In 123 svg ->
    fold_left clear_step (seq a n) svg = svg.
Proof.
  induction n as [|n IH]; intros a svg Ha Hs; [reflexivity|].
  cbn [seq fold_left]. unfold clear_step at 2.
  destruct (placeholders_shaped a ltac:(lia)) as [Hk Hb].
  rewrite (replace_absent svg _ _ Hk Hs), (replace_absent svg _ _ Hb Hs).
  apply IH; [lia | exact Hs].
Qed.

Lemma clear_placeholders_done (svg : pystr) :
  ~ In 123 svg -> clear_placeholders svg = svg.
Proof. intros H. apply clear_fold_done; [lia | exact H]. Qed.

(** What [generate_layer_svg] computes once the layer is found. *)
Lemma generate_selected (template : pystr) (keyboard_data : jdict)
  (layer_index : Z) (layer : list json) :
  selected_layer keyboard_data layer_index layer ->
  generate_layer_svg py_str template keyboard_data layer_index
  = (svg <- fill_keys py_str 0 layer
              (str_replace
                 (str_replace template "{{LAYER_TITLE}}"
                    (escape_svg_text
                       (Some (keyboard_name_of keyboard_data ++ " - Layer "
                              ++ str_of_int layer_index))))
                 "{{LAYER_SUBTITLE}}"
                 (escape_svg_text
                    (Some ("Layout: " ++ layout_name_of keyboard_data)))) ;;
     ret (Some (clear_placeholders svg))).
Proof.
  intros (layers & Hf & Hlt & Hi).
  unfold generate_layer_svg, jdict_get. rewrite Hf.
  destruct (Z.leb_spec (Z.of_nat (length layers)) layer_index); [lia|].
  rewrite Hi. reflexivity.
Qed.

(** ** Which call returns what *)

(** [generate_layer_svg] returns [None] when [layers] is missing below
    index 0 or is no list, when the index is not below the number of
    layers, and when the layer found is no list; it raises [IndexError]
    when the index is negative beyond the number of layers; otherwise
    it returns a document. *)
Theorem generate_layer_svg_outcome :
  forall (template : pystr) (keyboard_data : jdict) (layer_index : Z),
    let layers := jdict_get keyboard_data "layers" (JList []) in
    ((forall l, layers <> JList l) ->
     generate_layer_svg py_str template keyboard_data layer_index = ret None)
    /\ (forall l, layers = JList l ->
        ((Z.of_nat (length l) <= layer_index)%Z ->
         generate_layer_svg py_str template keyboard_data layer_index
         = ret None)
        /\ ((layer_index < - Z.of_nat (length l))%Z ->
            generate_layer_svg py_str template keyboard_data layer_index
            = raise IndexError)
        /\ ((- Z.of_nat (length l) <= layer_index < Z.of_nat (length l))%Z ->
            exists v,
              list_index l layer_index = ret v
              /\ ((forall layer, v <> JList layer) ->
                  generate_layer_svg py_str template keyboard_data
                    layer_index = ret None)
              /\ (forall layer, v = JList layer ->
                  exists svg,
                    generate_layer_svg py_str template keyboard_data
                      layer_index = ret (Some svg)))).
Proof.
  intros template data idx layers. subst layers. split.
  - intros H. unfold generate_layer_svg.
    destruct (jdict_get data "layers" (JList [])); try reflexivity.
    now destruct (H l).
  - intros l Hl. split; [|split].
    + intros H. unfold generate_layer_svg. rewrite Hl.
      destruct (Z.leb_spec (Z.of_nat (length l)) idx); [reflexivity | lia].
    + intros H. unfold generate_layer_svg. rewrite Hl.
      destruct (Z.leb_spec (Z.of_nat (length l)) idx); [lia|].
      unfold list_index.
      destruct (Z.ltb_spec idx 0); [|lia].
      destruct (Z.ltb_spec (idx + Z.of_nat (length l)) 0); [|lia].
      reflexivity.
    + intros H.
      assert (Hv : exists v, list_index l idx = ret v).
      { unfold list_index.
        destruct (Z.ltb_spec idx 0).
        - destruct (Z.ltb_spec (idx + Z.of_nat (length l)) 0); [lia|].
          destruct (nth_error l (Z.to_nat (idx + Z.of_nat (length l))))
            as [v|] eqn:E; [now exists v|].
          apply nth_error_None in E. lia.
        - destruct (Z.ltb_spec idx 0); [lia|].
          destruct (nth_error l (Z.to_nat idx)) as [v|] eqn:E;
            [now exists v|].
          apply nth_error_None in E. lia. }
      destruct Hv as [v Hv]. exists v. split; [exact Hv|]. split.
      * intros Hn. unfold generate_layer_svg. rewrite Hl.
        destruct (Z.leb_spec (Z.of_nat (length l)) idx); [lia|].
        rewrite Hv. cbn [bind ret].
        destruct v; try reflexivity. now destruct (Hn l0).
      * intros layer ->. unfold generate_layer_svg. rewrite Hl.
        destruct (Z.leb_spec (Z.of_nat (length l)) idx); [lia|].
        rewrite Hv. cbn [bind ret].
        match goal with |- context [fill_keys py_str 0 layer ?s] =>
          destruct (fill_keys_total layer 0 s) as [svg ->] end.
        eexists; reflexivity.
Qed.

(** ** Templates and placeholders *)

(** A template without an opening brace is returned as it is. *)
Theorem generate_layer_svg_plain_template :
  forall (template : pystr) (keyboard_data : jdict) (layer_index : Z)
         (layer : list json),
    selected_layer keyboard_data layer_index layer ->
    ~ In 123 template ->
    generate_layer_svg py_str template keyboard_data layer_index
    = ret (Some template).
Proof.
  intros template data idx layer Hsel Ht.
  rewrite (generate_selected template data idx layer Hsel).
  rewrite (replace_absent template "{{LAYER_TITLE}}" _ eq_refl Ht).
  rewrite (replace_absent template "{{LAYER_SUBTITLE}}" _ eq_refl Ht).
  rewrite fill_keys_done by exact Ht. cbn [bind ret].
  now rewrite clear_placeholders_done.
Qed.

(** The title placeholder receives the escaped title, made of the
    keymap name ([Unknown] when it is missing or no string) and the
    layer index; the subtitle placeholder the escaped layout line. *)
Theorem generate_layer_svg_title :
  forall (pre post : pystr) (keyboard_data : jdict) (layer_index : Z)
         (layer : list json),
    selected_layer keyboard_data layer_index layer ->
    ~ In 123 pre -> ~ In 123 post ->
    (~ In 123 (keyboard_name_of keyboard_data) ->
     generate_layer_svg py_str (pre ++ "{{LAYER_TITLE}}" ++ post)
       keyboard_data layer_index
     = ret (Some (pre
                  ++ escape_svg_text
                       (Some (keyboard_name_of keyboard_data ++ " - Layer "
                              ++ str_of_int layer_index))
                  ++ post)))
    /\ (~ In 123 (layout_name_of keyboard_data) ->
        generate_layer_svg py_str (pre ++ "{{LAYER_SUBTITLE}}" ++ post)
          keyboard_data layer_index
        = ret (Some (pre
                     ++ escape_svg_text
                          (Some ("Layout: " ++ layout_name_of keyboard_data))
                     ++ post))).
Proof.
  intros pre post data idx layer Hsel Hpre Hpost. split; intros Hn.
  - rewrite (generate_selected _ data idx layer Hsel).
    rewrite replace_this by (reflexivity || assumption).
    match goal with |- context [pre ++ ?t ++ post] =>
      assert (Hb : ~ In 123 (pre ++ t ++ post)) end.
    { apply not_in_app3; auto. apply escape_keeps_braces_out.
      intros H. apply in_app_or in H as [H|H]; [tauto|].
      apply in_app_or in H as [H|H];
        [simpl in H; intuition discriminate|].
      now apply str_of_int_no_brace in H. }
    rewrite replace_absent by (reflexivity || exact Hb).
    rewrite fill_keys_done by exact Hb. cbn [bind ret].
    now rewrite clear_placeholders_done.
  - rewrite (generate_selected _ data idx layer Hsel).
    rewrite replace_other by (reflexivity || assumption).
    rewrite replace_this by (reflexivity || assumption).
    match goal with |- context [pre ++ ?t ++ post] =>
      assert (Hb : ~ In 123 (pre ++ t ++ post)) end.
    { apply not_in_app3; auto. apply escape_keeps_braces_out.
      intros H. apply in_app_or in H as [H|H]; [|tauto].
      simpl in H; intuition discriminate. }
    rewrite fill_keys_done by exact Hb. cbn [bind ret].
    now rewrite clear_placeholders_done.
Qed.

Lemma fill_keys_key_pending (pre post : pystr) (i : nat) :
  (i < 60)%nat -> ~ In 123 pre -> ~ In 123 post ->
  forall (layer : list json) (j : nat),
    (j <= i)%nat ->
    (forall keycode, nth_error layer (i - j) = Some keycode ->
                     ~ In 123 (short_label py_str keycode)) ->
    fill_keys py_str j layer (pre ++ key_placeholder i ++ post)
    = ret match nth_error layer (i - j) with
          | Some keycode =>
              pre ++ escape_svg_text (Some (short_label py_str keycode))
              ++ post
          | None => pre ++ key_placeholder i ++ post
          end.
Proof.
  intros Hi Hpre Hpost.
  destruct (placeholders_shaped i Hi) as [Hki Hsi].
  induction layer as [|keycode rest IH]; intros j Hj Hlab.
  - now destruct (i - j)%nat.
  - rewrite fill_keys_step by lia.
    destruct (placeholders_shaped j ltac:(lia)) as [Hkj Hsj].
    destruct (placeholders_clash i j Hi ltac:(lia))
      as (Csk & _ & _ & _ & _ & _ & Cne).
    destruct (Nat.eq_dec j i) as [->|Hne].
    + rewrite Nat.sub_diag in *. cbn [nth_error] in *.
      rewrite replace_this by assumption.
      assert (Hb : ~ In 123 (pre ++ escape_svg_text
                                      (Some (short_label py_str keycode))
                             ++ post)).
      { apply not_in_app3; auto. apply escape_keeps_braces_out.
        now apply Hlab. }
      rewrite replace_absent by assumption.
      now apply fill_keys_done.
    + destruct (Cne ltac:(lia)) as [Ckk _].
      rewrite replace_other by assumption.
      rewrite replace_other by assumption.
      replace (i - j)%nat with (S (i - S j)) in * by lia.
      cbn [nth_error] in *. apply IH; [lia | exact Hlab].
Qed.

Lemma fill_keys_sub_pending (pre post : pystr) (i : nat) :
  (i < 60)%nat -> ~ In 123 pre -> ~ In 123 post ->
  forall (layer : list json) (j : nat),
    (j <= i)%nat ->
    fill_keys py_str j layer (pre ++ sub_placeholder i ++ post)
    = ret match nth_error layer (i - j) with
          | Some _ => pre ++ post
          | None => pre ++ sub_placeholder i ++ post
          end.
Proof.
  intros Hi Hpre Hpost.
  destruct (placeholders_shaped i Hi) as [Hki Hsi].
  induction layer as [|keycode rest IH]; intros j Hj.
  - now destruct (i - j)%nat.
  - rewrite fill_keys_step by lia.
    destruct (placeholders_shaped j ltac:(lia)) as [Hkj Hsj].
    destruct (placeholders_clash i j Hi ltac:(lia))
      as (_ & Cks & _ & _ & _ & _ & Cne).
    rewrite replace_other by assumption.
    destruct (Nat.eq_dec j i) as [->|Hne].
    + rewrite Nat.sub_diag. cbn [nth_error].
      rewrite replace_this by assumption. cbn [app].
      apply fill_keys_done. intros H. apply in_app_or in H. tauto.
    + destruct (Cne ltac:(lia)) as [_ Css].
      rewrite replace_other by assumption.
      replace (i - j)%nat with (S (i - S j)) by lia.
      cbn [nth_error]. apply IH; lia.
Qed.

Lemma clear_fold_pending (pre post : pystr) (i : nat) :
  (i < 60)%nat -> ~ In 123 pre -> ~ In 123 post ->
  forall n a : nat,
    (a <= i)%nat -> (i < a + n)%nat -> (a + n <= 60)%nat ->
    fold_left clear_step (seq a n) (pre ++ key_placeholder i ++ post)
    = pre ++ post
    /\ fold_left clear_step (seq a n) (pre ++ sub_placeholder i ++ post)
       = pre ++ post.
Proof.
  intros Hi Hpre Hpost.
  destruct (placeholders_shaped i Hi) as [Hki Hsi].
  assert (Hb : ~ In 123 (pre ++ post)).
  { intros H. apply in_app_or in H. tauto. }
  induction n as [|n IH]; intros a Ha Hin Hn; [lia|].
  cbn [seq fold_left]. unfold clear_step at 2 4.
  destruct (placeholders_shaped a ltac:(lia)) as [Hka Hsa].
  destruct (placeholders_clash i a Hi ltac:(lia))
    as (Csk & Cks & _ & _ & _ & _ & Cne).
  destruct (Nat.eq_dec a i) as [->|Hne].
  - rewrite (replace_this pre _ post []) by assumption. cbn [app].
    rewrite (replace_absent (pre ++ post)) by assumption.
    rewrite (replace_other pre (sub_placeholder i) post (key_placeholder i))
      by assumption.
    rewrite (replace_this pre _ post []) by assumption. cbn [app].
    split; apply clear_fold_done; auto; lia.
  - destruct (Cne ltac:(lia)) as [Ckk Css].
    rewrite !replace_other by assumption.
    apply IH; lia.
Qed.

(** Where [{{KEY_i}}] stands in the template, the document has the
    escaped short label of the layer's key [i], or nothing when the
    layer has no key [i]. *)
Theorem generate_layer_svg_key :
  forall (pre post : pystr) (keyboard_data : jdict) (layer_index : Z)
         (layer : list json) (i : nat),
    selected_layer keyboard_data layer_index layer ->
    (i < 60)%nat -> ~ In 123 pre -> ~ In 123 post ->
    (forall keycode, nth_error layer i = Some keycode ->
                     ~ In 123 (short_label py_str keycode)) ->
    generate_layer_svg py_str (pre ++ key_placeholder i ++ post)
      keyboard_data layer_index
    = ret (Some (pre ++ key_cell py_str layer i ++ post)).
Proof.
  intros pre post data idx layer i Hsel Hi Hpre Hpost Hlab.
  destruct (placeholders_shaped i Hi) as [Hki Hsi].
  destruct (placeholders_clash i i Hi Hi) as (_ & _ & Ct & Cs & _).
  rewrite (generate_selected _ data idx layer Hsel).
  rewrite replace_other by (reflexivity || assumption).
  rewrite replace_other by (reflexivity || assumption).
  rewrite (fill_keys_key_pending pre post i Hi Hpre Hpost layer 0)
    by (rewrite ?Nat.sub_0_r; auto; lia).
  rewrite Nat.sub_0_r. cbn [bind ret]. unfold key_cell.
  destruct (nth_error layer i) as [keycode|] eqn:E.
  - rewrite clear_placeholders_done; [reflexivity|].
    apply not_in_app3; auto. apply escape_keeps_braces_out. now apply Hlab.
  - unfold clear_placeholders.
    now rewrite (proj1 (clear_fold_pending pre post i Hi Hpre Hpost 60 0
                          ltac:(lia) ltac:(lia) ltac:(lia))).
Qed.

(** Where [{{SUB_i}}] stands in the template, the document has
    nothing. *)
Theorem generate_layer_svg_sub :
  forall (pre post : pystr) (keyboard_data : jdict) (layer_index : Z)
         (layer : list json) (i : nat),
    selected_layer keyboard_data layer_index layer ->
    (i < 60)%nat -> ~ In 123 pre -> ~ In 123 post ->
    generate_layer_svg py_str (pre ++ sub_placeholder i ++ post)
      keyboard_data layer_index
    = ret (Some (pre ++ post)).
Proof.
  intros pre post data idx layer i Hsel Hi Hpre Hpost.
  destruct (placeholders_shaped i Hi) as [Hki Hsi].
  destruct (placeholders_clash i i Hi Hi) as (_ & _ & _ & _ & Ct & Cs & _).
  rewrite (generate_selected _ data idx layer Hsel).
  rewrite replace_other by (reflexivity || assumption).
  rewrite replace_other by (reflexivity || assumption).
  rewrite (fill_keys_sub_pending pre post i Hi Hpre Hpost layer 0) by lia.
  cbn [bind ret].
  destruct (nth_error layer (i - 0)).
  - rewrite clear_placeholders_done; [reflexivity|].
    intros H. apply in_app_or in H. tauto.
  - unfold clear_placeholders.
    now rewrite (proj2 (clear_fold_pending pre post i Hi Hpre Hpost 60 0
                          ltac:(lia) ltac:(lia) ltac:(lia))).
Qed.

Lemma fill_keys_firstn (layer : list json) :
  forall (i : nat) (svg : pystr),
    fill_keys py_str i layer svg
    = fill_keys py_str i (firstn (60 - i) layer) svg.
Proof.
  induction layer as [|keycode rest IH]; intros i svg.
  - now rewrite firstn_nil.
  - destruct (Nat.lt_ge_cases i 60) as [H|H].
    + replace (60 - i)%nat with (S (60 - S i)) by lia. cbn [firstn].
      rewrite !fill_keys_step by exact H. apply IH.
    + rewrite !fill_keys_stop by exact H. reflexivity.
Qed.

(** Only the first 60 keys of a layer count: two layouts with the same
    names whose layers agree on their first 60 keys give the same
    document. *)
Theorem generate_layer_svg_first_60 :
  forall (template : pystr) (data data' : jdict) (layer_index : Z)
         (layer layer' : list json),
    selected_layer data layer_index layer ->
    selected_layer data' layer_index layer' ->
    keyboard_name_of data = keyboard_name_of data' ->
    layout_name_of data = layout_name_of data' ->
    firstn 60 layer = firstn 60 layer' ->
    generate_layer_svg py_str template data layer_index
    = generate_layer_svg py_str template data' layer_index.
Proof.
  intros template data data' idx layer layer' Hs Hs' Hk Hl Hf.
  rewrite (generate_selected template data idx layer Hs).
  rewrite (generate_selected template data' idx layer' Hs').
  rewrite Hk, Hl.
  rewrite (fill_keys_firstn layer), (fill_keys_firstn layer').
  cbn [Nat.sub]. now rewrite Hf.
Qed.

End LayerFacts.

Lemma generate_layer_svg_outcome_witness :
  generate_layer_svg (fun _ => []) "<svg/>" [] (-1) = raise IndexError.
Proof.
  apply (proj1 (proj2 (proj2 (generate_layer_svg_outcome (fun _ => [])
                                "<svg/>" [] (-1)) [] eq_refl))).
  reflexivity.
Defined.

Lemma selected_layer_example :
  selected_layer
    [("keymap", JStr "a<b"); ("layers", JList [JList [JStr "KC_A"; JInt 7]])]
    0 [JStr "KC_A"; JInt 7].
Proof. eexists; repeat split. Qed.

Lemma generate_layer_svg_plain_template_witness :
  generate_layer_svg (fun _ => []) "<svg/>"
    [("keymap", JStr "a<b"); ("layers", JList [JList [JStr "KC_A"; JInt 7]])]
    0
  = ret (Some "<svg/>").
Proof.
  apply (generate_layer_svg_plain_template (fun _ => []) _ _ _ _
           selected_layer_example).
  simpl; intuition discriminate.
Defined.

Lemma generate_layer_svg_title_witness :
  generate_layer_svg (fun _ => []) ("<t>" ++ "{{LAYER_TITLE}}" ++ "</t>")
    [("keymap", JStr "a<b"); ("layers", JList [JList [JStr "KC_A"; JInt 7]])]
    0
  = ret (Some ("<t>" ++ "a&lt;b - Layer 0" ++ "</t>")).
Proof.
  apply (proj1 (generate_layer_svg_title (fun _ => []) "<t>" "</t>" _ _ _
                  selected_layer_example
                  ltac:(simpl; intuition discriminate)
                  ltac:(simpl; intuition discriminate))).
  simpl; intuition discriminate.
Defined.

Lemma generate_layer_svg_key_witness :
  generate_layer_svg (fun _ => "7") ("<k>" ++ key_placeholder 1 ++ "</k>")
    [("keymap", JStr "a<b"); ("layers", JList [JList [JStr "KC_A"; JInt 7]])]
    0
  = ret (Some ("<k>" ++ "7" ++ "</k>")).
Proof.
  apply (generate_layer_svg_key (fun _ => "7") "<k>" "</k>" _ _ _ 1
           selected_layer_example).
  - lia.
  - simpl; intuition discriminate.
  - simpl; intuition discriminate.
  - intros keycode [= <-]. vm_compute. intuition discriminate.
Defined.

Lemma generate_layer_svg_sub_witness :
  generate_layer_svg (fun _ => []) ("<k>" ++ sub_placeholder 59 ++ "</k>")
    [("keymap", JStr "a<b"); ("layers", JList [JList [JStr "KC_A"; JInt 7]])]
    0
  = ret (Some ("<k>" ++ "</k>")).
Proof.
  apply (generate_layer_svg_sub (fun _ => []) "<k>" "</k>" _ _ _ 59
           selected_layer_example).
  - lia.
  - simpl; intuition discriminate.
  - simpl; intuition discriminate.
Defined.

Lemma generate_layer_svg_first_60_witness :
  generate_layer_svg (fun _ => [])
    ("{{KEY_59}}" ++ "{{KEY_60}}")
    [("layers", JList [JList (repeat (JStr "KC_A") 60 ++ [JStr "KC_B"])])] 0
  = generate_layer_svg (fun _ => [])
      ("{{KEY_59}}" ++ "{{KEY_60}}")
      [("layers", JList [JList (repeat (JStr "KC_A") 60)])] 0.
Proof.
  apply (generate_layer_svg_first_60 (fun _ => []) _ _ _ 0
           (repeat (JStr "KC_A") 60 ++ [JStr "KC_B"])
           (repeat (JStr "KC_A") 60)).
  - eexists; repeat split.
  - eexists; repeat split.
  - reflexivity.
  - reflexivity.
  - reflexivity.
Defined.
